(** * The streaming response decoder of [src/App.js]

    A shallow embedding of the part of [handleChatSubmit] that reads the
    server-sent event stream of [/run_workflow], cuts it into records,
    classifies them by prefix and rebuilds the assistant message.

    JavaScript strings are sequences of UTF-16 code units; they are modelled
    as [list N].  [String.prototype.trim], [startsWith], [substring],
    [split] with the separator ["\n\n"] and [replace] with the global
    pattern [/\\n/g] are written out as list functions.  The handler is
    read as the sequence of what it does to the chat history: it gives the
    variable [aiResponse] a value, and it calls [setChatHistory] with an
    updater.  The updaters of the loop are closures over [aiResponse] and
    read it when React runs them, so that the chat history is stated for
    every moment at which React can run them.

    The second part embeds the workflow: the validation, the edition of the
    selected node, the requests as [JSON.stringify] writes them, and the
    handlers that build the stack and upload a document. *)

From Stdlib Require Import List Arith NArith Bool Ascii String Lia.
From Stdlib Require PrimFloat.
Import ListNotations.

(** ** JavaScript strings *)

Module JS.

Definition jsstring := list N.

(** A string literal of the source, as code units. *)
Definition lit (s : string) : jsstring :=
  map N_of_ascii (list_ascii_of_string s).

Definition LF : N := 10%N.
Definition BACKSLASH : N := 92%N.
Definition LOWER_N : N := 110%N.

(** The code units that [trim] removes: WhiteSpace and LineTerminator of
    ECMAScript. *)
Definition isWhiteSpace (c : N) : bool :=
  ((9 <=? c) && (c <=? 13) || (c =? 32) || (c =? 160) || (c =? 5760)
   || (8192 <=? c) && (c <=? 8202) || (c =? 8232) || (c =? 8233)
   || (c =? 8239) || (c =? 8287) || (c =? 12288) || (c =? 65279))%N.

Fixpoint trimStart (s : jsstring) : jsstring :=
  match s with
  | c :: s' => if isWhiteSpace c then trimStart s' else s
  | [] => []
  end.

Definition trimEnd (s : jsstring) : jsstring := rev (trimStart (rev s)).

Definition trim (s : jsstring) : jsstring := trimEnd (trimStart s).

Fixpoint startsWith (s p : jsstring) : bool :=
  match p, s with
  | [], _ => true
  | _ :: _, [] => false
  | x :: p', c :: s' => (c =? x)%N && startsWith s' p'
  end.

Definition substring (s : jsstring) (n : nat) : jsstring := skipn n s.

Fixpoint eqb (s t : jsstring) : bool :=
  match s, t with
  | [], [] => true
  | c :: s', d :: t' => (c =? d)%N && eqb s' t'
  | _, _ => false
  end.

(** Truthiness of a string: only the empty string is falsy. *)
Definition truthy (s : jsstring) : bool :=
  match s with [] => false | _ :: _ => true end.

(** [a || b] on strings. *)
Definition or_else (a b : jsstring) : jsstring := if truthy a then a else b.

(** [c] put in front of the first part of a split. *)
Definition cons_first (c : N) (parts : list jsstring) : list jsstring :=
  match parts with
  | p :: ps => (c :: p) :: ps
  | [] => [[c]]
  end.

(** [s.split(sep)] for a separator [sep] of the two code units [a], [b]:
    the occurrences are found from the left and do not overlap. *)
Fixpoint split2 (a b : N) (s : jsstring) : list jsstring :=
  match s with
  | [] => [[]]
  | c1 :: tl =>
      match tl with
      | [] => [[c1]]
      | c2 :: rest =>
          if ((c1 =? a) && (c2 =? b))%N then [] :: split2 a b rest
          else cons_first c1 (split2 a b tl)
      end
  end.

(** [s.replace(/ab/g, r)] for a pattern of the two literal code units
    [a], [b]. *)
Fixpoint replace2 (a b : N) (r : jsstring) (s : jsstring) : jsstring :=
  match s with
  | [] => []
  | c1 :: tl =>
      match tl with
      | [] => [c1]
      | c2 :: rest =>
          if ((c1 =? a) && (c2 =? b))%N then r ++ replace2 a b r rest
          else c1 :: replace2 a b r tl
      end
  end.

(** [parts.join(sep)]. *)
Fixpoint join (sep : jsstring) (parts : list jsstring) : jsstring :=
  match parts with
  | [] => []
  | [p] => p
  | p :: ps => p ++ sep ++ join sep ps
  end.

(** [s] contains the two code units [a], [b] next to each other. *)
Fixpoint occurs2 (a b : N) (s : jsstring) : bool :=
  match s with
  | [] => false
  | c1 :: tl =>
      match tl with
      | [] => false
      | c2 :: _ => ((c1 =? a) && (c2 =? b))%N || occurs2 a b tl
      end
  end.

End JS.

Import JS.

(** ** The chat history and its updaters *)

Inductive Role := user | ai.

(** An entry of [chatHistory].  An entry written without the key
    [isStreaming] has [isStreaming = false] here. *)
Record message := Message {
  role : Role;
  content : jsstring;
  isStreaming : bool
}.

Definition isAi (m : message) : bool :=
  match role m with ai => true | user => false end.

(** The two shapes of function handed to [setChatHistory].  The second one
    is a closure over the variable [aiResponse] of the handler: the entry it
    writes is built from the value that variable has when React runs the
    function, which is not before the call but can be after it. *)
Inductive updater :=
| Append (m : message)
    (* prev => [...prev, m] *)
| ReplaceLastAi (m : jsstring -> message).
    (* prev => copy prev; if the last entry has role 'ai', put there the
       entry [m aiResponse] *)

Fixpoint replaceLastAi (m : message) (prev : list message) : list message :=
  match prev with
  | [] => []
  | x :: tl =>
      match tl with
      | [] => if isAi x then [m] else [x]
      | _ :: _ => x :: replaceLastAi m tl
      end
  end.

(** An updater run while [aiResponse] has the value [current]. *)
Definition runUpdater (current : jsstring) (prev : list message) (u : updater)
  : list message :=
  match u with
  | Append m => prev ++ [m]
  | ReplaceLastAi m => replaceLastAi (m current) prev
  end.

(** What the handler does that matters to the history, in program order:
    it gives [aiResponse] a value and it calls [setChatHistory]. *)
Inductive event :=
| Assigned (v : jsstring)
| Called (u : updater).

(** The history after each of the updaters [us], run one after the other
    while [aiResponse] is [current], and the history after the last. *)
Fixpoint snapshots (current : jsstring) (prev : list message)
    (us : list updater) : list (list message) :=
  match us with
  | [] => []
  | u :: us' =>
      runUpdater current prev u
      :: snapshots current (runUpdater current prev u) us'
  end.

Definition runNow (current : jsstring) (prev : list message)
    (us : list updater) : list message :=
  fold_left (runUpdater current) us prev.

(** React.  The updaters wait in a queue and are run in the order of the
    calls.  When React runs them is its own business: at once when nothing
    is waiting, at the next render otherwise.  Here it can be any moment
    from the call on: before each event of the handler React runs as many
    of the waiting updaters as the schedule [sched] says (none when the
    schedule is used up), and when the handler is done it runs those that
    are left.  The result is the history after each updater. *)
Fixpoint react (sched : list nat) (current : jsstring)
    (pending : list updater) (prev : list message) (trace : list event)
  : list (list message) :=
  match trace with
  | [] => snapshots current prev pending
  | e :: trace' =>
      let ready := firstn (hd 0 sched) pending in
      let waiting := skipn (hd 0 sched) pending in
      snapshots current prev ready ++
      match e with
      | Assigned v =>
          react (tl sched) v waiting (runNow current prev ready) trace'
      | Called u =>
          react (tl sched) current (waiting ++ [u])
            (runNow current prev ready) trace'
      end
  end.

(** The history once every updater of the handler has run. *)
Definition runUpdaters (sched : list nat) (prev : list message)
    (trace : list event) : list message :=
  last (react sched [] [] prev trace) prev.

(** The text of the last entry of a history. *)
Definition lastContent (h : list message) : jsstring :=
  match rev h with
  | m :: _ => content m
  | [] => []
  end.

(** ** The decoder *)

(** The local variables of the streaming branch, the calls of
    [setChatHistory] made so far together with the values given to
    [aiResponse] between them, and what was written to the console. *)
Record session := Session {
  aiResponse : jsstring;
  buffer : jsstring;
  statusMsg : jsstring;
  chatUpdates : list event;
  console : list (list jsstring)
}.

Definition setAiResponse (st : session) (v : jsstring) : session :=
  Session v (buffer st) (statusMsg st) (chatUpdates st ++ [Assigned v])
          (console st).

Definition setBuffer (st : session) (v : jsstring) : session :=
  Session (aiResponse st) v (statusMsg st) (chatUpdates st) (console st).

Definition setStatusMsg (st : session) (v : jsstring) : session :=
  Session (aiResponse st) (buffer st) v (chatUpdates st) (console st).

Definition setChatHistory (st : session) (u : updater) : session :=
  Session (aiResponse st) (buffer st) (statusMsg st)
          (chatUpdates st ++ [Called u]) (console st).

Definition consoleLog (st : session) (args : list jsstring) : session :=
  Session (aiResponse st) (buffer st) (statusMsg st) (chatUpdates st)
          (console st ++ [args]).

(** [.replace(/\\n/g, '\n')]. *)
Definition unescape (payload : jsstring) : jsstring :=
  replace2 BACKSLASH LOWER_N [LF] payload.

(** One turn of the [for] loop over the complete parts. *)
Definition processPart (st : session) (part : jsstring) : session :=
  let line := trim part in
  if negb (truthy line) then st
  else if startsWith line (lit "data: ") then
    let content := unescape (substring line 6) in
    let st1 := setAiResponse st (aiResponse st ++ content) in
    setChatHistory st1
      (ReplaceLastAi (fun aiResponseNow => Message ai aiResponseNow true))
  else if startsWith line (lit "status: ") then
    let st1 := setStatusMsg st (substring line 8) in
    consoleLog st1 [lit "Status:"; statusMsg st1]
  else if startsWith line (lit "final: ") then
    let finalContent := trim (substring line 7) in
    if truthy finalContent
       && negb (eqb finalContent (lit "No response"))
       && negb (truthy (aiResponse st))
    then setAiResponse st finalContent
    else st
  else st.

(** One turn of the [while] loop, for a chunk already decoded to text. *)
Definition processChunk (st : session) (chunk : jsstring) : session :=
  let parts := split2 LF LF (buffer st ++ chunk) in
  let st1 := setBuffer st (last parts []) in
  fold_left processPart (removelast parts) st1.

(** What is left in the buffer when the reader is done. *)
Definition flushBuffer (st : session) : session :=
  if truthy (trim (buffer st)) then
    let line := trim (buffer st) in
    if startsWith line (lit "data: ") then
      let content := unescape (substring line 6) in
      setAiResponse st (aiResponse st ++ content)
    else if startsWith line (lit "final: ") then
      let finalContent := trim (substring line 7) in
      if truthy finalContent && negb (truthy (aiResponse st))
      then setAiResponse st finalContent
      else st
    else st
  else st.

Definition NO_RESPONSE_GENERATED : jsstring := lit "No response generated.".

(** The text shown when the stream has ended. *)
Definition resolvedText (st : session) : jsstring :=
  or_else (aiResponse st) NO_RESPONSE_GENERATED.

(** Mark streaming as complete. *)
Definition complete (st : session) : session :=
  setChatHistory st
    (ReplaceLastAi
       (fun aiResponseNow =>
          Message ai (or_else aiResponseNow NO_RESPONSE_GENERATED) false)).

(** The state when the streaming branch is entered: the three locals are
    empty and the placeholder bubble has been queued. *)
Definition openStream : session :=
  Session [] [] [] [Called (Append (Message ai [] true))] [].

(** The state when the [while] loop has consumed [chunks]. *)
Definition streamLoop (chunks : list jsstring) : session :=
  fold_left processChunk chunks openStream.

(** How the reader stops: [done], or a rejected [read]. *)
Inductive ending := EndOfStream | ReadError.

(** What [fetch] and the response give the handler.  [NotOkNoJson]: the
    response is not ok and its body does not parse, or parses to [null], so
    that reading [detail] throws. *)
Inductive fetchResult :=
| FetchRejected
| NotOk (detail : option jsstring)
| NotOkNoJson
| Ok (chunks : list jsstring) (e : ending).

Section Handler.

Variable API_BASE_URL : jsstring.

Definition connectionError : message :=
  Message ai
    (lit "Error connecting to backend. Make sure the server is running at "
       ++ API_BASE_URL)
    false.

Definition requestError (detail : option jsstring) : message :=
  let d := match detail with Some d => d | None => [] end in
  Message ai
    (lit "Error: " ++ or_else d (lit "Failed to process request")) false.

(** The calls of [setChatHistory] made by one run of [handleChatSubmit], in
    order, with the values given to [aiResponse] between them.  [valid] is
    the result of [validateWorkflow()]. *)
Definition handleChatSubmit (query : jsstring) (valid : bool)
    (resp : fetchResult) : list event :=
  if negb (truthy (trim query)) then []
  else if negb valid then []
  else
    Called (Append (Message user query false)) ::
    match resp with
    | FetchRejected => [Called (Append connectionError)]
    | NotOk detail => [Called (Append (requestError detail))]
    | NotOkNoJson => [Called (Append connectionError)]
    | Ok chunks EndOfStream =>
        chatUpdates (complete (flushBuffer (streamLoop chunks)))
    | Ok chunks ReadError =>
        chatUpdates (streamLoop chunks) ++ [Called (Append connectionError)]
    end.

End Handler.

(** The line splitter on its own: the complete parts cut so far and the
    remainder kept in the buffer. *)
Fixpoint feed (buf : jsstring) (chunks : list jsstring)
  : list jsstring * jsstring :=
  match chunks with
  | [] => ([], buf)
  | chunk :: chunks' =>
      let parts := split2 LF LF (buf ++ chunk) in
      let (records, remainder) := feed (last parts []) chunks' in
      (removelast parts ++ records, remainder)
  end.

(** The whole text read, cut in one call. *)
Definition partsOf (chunks : list jsstring) : list jsstring :=
  removelast (split2 LF LF (List.concat chunks)).

Definition remainderOf (chunks : list jsstring) : jsstring :=
  last (split2 LF LF (List.concat chunks)) [].

(** Two states that agree on the message text and on the queue of
    history updates. *)
Definition sameText (s1 s2 : session) : Prop :=
  aiResponse s1 = aiResponse s2 /\ chatUpdates s1 = chatUpdates s2.

(** ** What the user sees *)

Definition prefixOf (p s : jsstring) : Prop := exists t, s = p ++ t.

(** Each element is related to the next one. *)
Fixpoint chain (R : jsstring -> jsstring -> Prop) (l : list jsstring) : Prop :=
  match l with
  | [] => True
  | x :: tl =>
      match tl with
      | [] => True
      | y :: _ => R x y /\ chain R tl
      end
  end.

(** The text of the last entry of the history after each updater of the
    handler: what the bubble at the end of the chat shows, step by step. *)
Definition publishedTexts (sched : list nat) (prev : list message)
    (trace : list event) : list jsstring :=
  map lastContent (react sched [] [] prev trace).

(** The bubble of a reply that is still streaming, and the update of the
    loop, which shows [aiResponse] in it. *)
Definition inProgress (text : jsstring) : message := Message ai text true.

Definition showAiResponse : updater := ReplaceLastAi inProgress.

(** ** The values the updaters read *)

(** The value of [aiResponse] after the events, from the value [current]. *)
Fixpoint finalValue (current : jsstring) (trace : list event) : jsstring :=
  match trace with
  | [] => current
  | Assigned v :: trace' => finalValue v trace'
  | Called _ :: trace' => finalValue current trace'
  end.

(** The value of [aiResponse] at each call. *)
Fixpoint callValues (current : jsstring) (trace : list event)
  : list jsstring :=
  match trace with
  | [] => []
  | Assigned v :: trace' => callValues v trace'
  | Called _ :: trace' => current :: callValues current trace'
  end.

Fixpoint callsOf (trace : list event) : list updater :=
  match trace with
  | [] => []
  | Assigned _ :: trace' => callsOf trace'
  | Called u :: trace' => u :: callsOf trace'
  end.

(** Each value given to [aiResponse] begins with the one before. *)
Fixpoint growing (current : jsstring) (trace : list event) : Prop :=
  match trace with
  | [] => True
  | Assigned v :: trace' => prefixOf current v /\ growing v trace'
  | Called _ :: trace' => growing current trace'
  end.

(** The value each updater finds in [aiResponse] when React runs it under
    the schedule, in the order of the queue; [waiting] is the number of
    updaters waiting at the start. *)
Fixpoint reads (sched : list nat) (current : jsstring) (waiting : nat)
    (trace : list event) : list jsstring :=
  match trace with
  | [] => repeat current waiting
  | e :: trace' =>
      let ready := Nat.min (hd 0 sched) waiting in
      repeat current ready ++
      match e with
      | Assigned v => reads (tl sched) v (waiting - ready) trace'
      | Called _ => reads (tl sched) current (waiting - ready + 1) trace'
      end
  end.

(** The history after each of the updaters [us], the i-th run while
    [aiResponse] is the i-th of [values], and the history after the last. *)
Fixpoint resolve (prev : list message) (us : list updater)
    (values : list jsstring) : list (list message) :=
  match us, values with
  | u :: us', v :: values' =>
      runUpdater v prev u :: resolve (runUpdater v prev u) us' values'
  | _, _ => []
  end.

Fixpoint resolved (prev : list message) (us : list updater)
    (values : list jsstring) : list message :=
  match us, values with
  | u :: us', v :: values' => resolved (runUpdater v prev u) us' values'
  | _, _ => prev
  end.

(** The shape of a session once the streaming branch is entered.  The
    placeholder was queued first and every call after it is the update of
    the loop.  The values given to [aiResponse] grow and the last one is the
    value it has now. *)
Definition streamed (st : session) (body : list event) : Prop :=
  chatUpdates st = Called (Append (inProgress [])) :: body
  /\ callsOf body = repeat showAiResponse (List.length (callValues [] body))
  /\ growing [] body
  /\ finalValue [] body = aiResponse st.

(** While the loop runs: when the update of the loop was called,
    [aiResponse] has not changed since the last of these calls and is not
    empty. *)
Definition settled (st : session) (body : list event) : Prop :=
  callValues [] body = []
  \/ (last (callValues [] body) [] = aiResponse st /\ aiResponse st <> []).

Definition streaming (st : session) : Prop :=
  exists body, streamed st body /\ settled st body.

Definition finishing (st : session) : Prop :=
  exists body, streamed st body.

(** The text of the bubble once every update of the loop has run: empty
    when only the placeholder was queued, the value of [aiResponse]
    otherwise. *)
Definition shownText (st : session) : jsstring :=
  match callValues [] (chatUpdates st) with
  | _ :: _ :: _ => aiResponse st
  | _ => []
  end.

(** What a part adds to the message text when it is a Content record. *)
Definition contentOf (part : jsstring) : jsstring :=
  let line := trim part in
  if startsWith line (lit "data: ") then unescape (substring line 6) else [].

(** The Content payloads of the parts, unescaped, one after the other. *)
Definition contentText (parts : list jsstring) : jsstring :=
  List.concat (map contentOf parts).

(** The address used in the examples: the default of [API_BASE_URL]. *)
Definition localhost : jsstring := lit "http://localhost:8000".

(** ** The loop, record by record *)

(** What a part puts into [aiResponse] when [aiResponse] is still empty:
    the unescaped payload of a Content record, the trimmed payload of a
    Final record unless it is the sentinel, nothing otherwise. *)
Definition textOf (part : jsstring) : jsstring :=
  let line := trim part in
  if startsWith line (lit "data: ") then unescape (substring line 6)
  else if startsWith line (lit "status: ") then []
  else if startsWith line (lit "final: ") then
    let finalContent := trim (substring line 7) in
    if eqb finalContent (lit "No response") then [] else finalContent
  else [].

(** The text the loop builds from the empty string: the first part that
    gives some text starts it, and from then on only Content payloads are
    added. *)
Fixpoint loopText (parts : list jsstring) : jsstring :=
  match parts with
  | [] => []
  | part :: rest =>
      match textOf part with
      | [] => loopText rest
      | c :: text => (c :: text) ++ contentText rest
      end
  end.

(** The payloads of the Status records among the parts, in order. *)
Fixpoint statusPayloads (parts : list jsstring) : list jsstring :=
  match parts with
  | [] => []
  | part :: rest =>
      let line := trim part in
      if negb (startsWith line (lit "data: "))
         && startsWith line (lit "status: ")
      then substring line 8 :: statusPayloads rest
      else statusPayloads rest
  end.

(** ** The workflow: values, objects, nodes and edges *)

(** The values kept in the [data] of a node and received from the backend:
    numbers are doubles, as in JavaScript. *)
Inductive jsvalue :=
| Undefined
| Null
| Bool (b : bool)
| Num (f : PrimFloat.float)
| Str (s : jsstring).

Definition truthyValue (v : jsvalue) : bool :=
  match v with
  | Undefined | Null => false
  | Bool b => b
  | Num f => negb (PrimFloat.is_nan f || PrimFloat.is_zero f)
  | Str s => truthy s
  end.

(** [a || b] on values. *)
Definition orValue (a b : jsvalue) : jsvalue :=
  if truthyValue a then a else b.

(** An object, as its own properties in the order they were created. *)
Definition object := list (jsstring * jsvalue).

(** [o[key]]: [undefined] when there is no such property. *)
Fixpoint getProp (o : object) (key : jsstring) : jsvalue :=
  match o with
  | [] => Undefined
  | (k, v) :: o' => if eqb k key then v else getProp o' key
  end.

Fixpoint hasProp (o : object) (key : jsstring) : bool :=
  match o with
  | [] => false
  | (k, _) :: o' => eqb k key || hasProp o' key
  end.

(** [o[key] = value]: the property keeps its place when it exists and is
    added at the end when it does not. *)
Fixpoint setProp (o : object) (key : jsstring) (value : jsvalue) : object :=
  match o with
  | [] => [(key, value)]
  | (k, v) :: o' =>
      if eqb k key then (k, value) :: o' else (k, v) :: setProp o' key value
  end.

(** [{ ...target, ...source }]: the properties of [source] are set on
    [target] one after the other. *)
Definition spread (target source : object) : object :=
  fold_left (fun o kv => setProp o (fst kv) (snd kv)) source target.

Record xy := XY { pos_x : PrimFloat.float; pos_y : PrimFloat.float }.

Record node := Node {
  id : jsstring;
  type : jsstring;
  position : xy;
  data : object
}.

Record edge := Edge {
  edgeId : jsvalue;
  source : jsstring;
  target : jsstring
}.

Record toast := Toast { toastMessage : jsvalue; toastType : jsstring }.

(** [showToast(message)], with the default type. *)
Definition errorToast (message : string) : toast :=
  Toast (Str (lit message)) (lit "error").

Definition hasNodeOfType (nodes : list node) (t : jsstring) : bool :=
  existsb (fun n => eqb (type n) t) nodes.

(** [validateWorkflow]: the toasts it shows and the value it returns. *)
Definition validateWorkflow (nodes : list node) (edges : list edge)
  : list toast * bool :=
  let hasInput := hasNodeOfType nodes (lit "inputNode") in
  let hasOutput := hasNodeOfType nodes (lit "outputNode") in
  let hasLLM := hasNodeOfType nodes (lit "llmNode") in
  if negb hasInput then
    ([errorToast "Workflow must have a User Query component"], false)
  else if negb hasOutput then
    ([errorToast "Workflow must have an Output component"], false)
  else if negb hasLLM then
    ([errorToast "Workflow must have an LLM Engine component"], false)
  else if (List.length edges =? 0)%nat then
    ([errorToast "Components must be connected"], false)
  else ([], true).

(** The function [updateNodeData] maps over the nodes. *)
Definition updateNode (selectedId key : jsstring) (value : jsvalue) (n : node)
  : node :=
  if eqb (id n) selectedId then
    let newData := setProp (data n) key value in
    let newData :=
      if eqb key (lit "model") then setProp newData (lit "subtext") value
      else newData in
    let newData :=
      if eqb key (lit "filename") then setProp newData (lit "subtext") value
      else newData in
    let newData :=
      if eqb key (lit "embeddingModel")
      then setProp newData (lit "subtext") value
      else newData in
    Node (id n) (type n) (position n) newData
  else n.

(** [updateNodeData(key, value)]: the nodes and the selected node after the
    two state updates. *)
Definition updateNodeData (nodes : list node) (selectedNode : option node)
    (key : jsstring) (value : jsvalue) : list node * option node :=
  match selectedNode with
  | None => (nodes, None)
  | Some sel =>
      (map (updateNode (id sel) key value) nodes,
       Some (Node (id sel) (type sel) (position sel)
               (setProp (data sel) key value)))
  end.

(** ** The requests *)

Record requestNode := RequestNode {
  r_id : jsstring;
  r_type : jsstring;
  r_label : jsvalue;
  r_config : object;
  r_position : xy
}.

Record requestEdge := RequestEdge {
  q_id : jsvalue;
  q_source : jsstring;
  q_target : jsstring
}.

Record workflowRequest := WorkflowRequest {
  req_nodes : list requestNode;
  req_edges : list requestEdge;
  user_query : jsstring
}.

Definition requestEdgeOf (e : edge) : requestEdge :=
  RequestEdge
    (orValue (edgeId e)
       (Str (lit "edge_" ++ source e ++ lit "_" ++ target e)))
    (source e) (target e).

(** The nodes of [requestData], in [handleChatSubmit]. *)
Definition chatConfig (d : object) : object :=
  spread
    [(lit "model",
      orValue (getProp d (lit "model")) (Str (lit "llama-3.3-70b-versatile")));
     (lit "system_prompt",
      orValue (getProp d (lit "prompt"))
        (Str (lit "You are a helpful assistant.")));
     (lit "vector_collection_id", getProp d (lit "documentId"))]
    d.

Definition chatNodeOf (n : node) : requestNode :=
  RequestNode (id n) (type n)
    (orValue (getProp (data n) (lit "label")) (Str (type n)))
    (chatConfig (data n)) (position n).

Definition requestData (nodes : list node) (edges : list edge)
    (userQuery : jsstring) : workflowRequest :=
  WorkflowRequest (map chatNodeOf nodes) (map requestEdgeOf edges) userQuery.

(** The nodes of [workflowData], in [handleBuildStack]. *)
Definition buildConfig (d : object) : object :=
  spread
    [(lit "model", getProp d (lit "model"));
     (lit "system_prompt", getProp d (lit "prompt"));
     (lit "vector_collection_id", getProp d (lit "documentId"))]
    d.

Definition buildNodeOf (n : node) : requestNode :=
  RequestNode (id n) (type n)
    (orValue (getProp (data n) (lit "label")) (Str (type n)))
    (buildConfig (data n)) (position n).

Definition workflowData (nodes : list node) (edges : list edge)
  : workflowRequest :=
  WorkflowRequest (map buildNodeOf nodes) (map requestEdgeOf edges) [].

(** ** What is sent *)

Unset Elimination Schemes.

(** A JSON text, as the value it denotes. *)
Inductive json :=
| JNull
| JBool (b : bool)
| JNum (f : PrimFloat.float)
| JStr (s : jsstring)
| JArr (items : list json)
| JObj (members : list (jsstring * json)).

Set Elimination Schemes.

(** [JSON.stringify] on a number: NaN and the infinities give [null], and
    minus zero gives [0]. *)
Definition jsonOfNumber (f : PrimFloat.float) : json :=
  if PrimFloat.is_nan f || PrimFloat.is_infinity f then JNull
  else if PrimFloat.is_zero f then JNum PrimFloat.zero
  else JNum f.

(** [JSON.stringify] on a value: [undefined] gives no text. *)
Definition jsonOfValue (v : jsvalue) : option json :=
  match v with
  | Undefined => None
  | Null => Some JNull
  | Bool b => Some (JBool b)
  | Num f => Some (jsonOfNumber f)
  | Str s => Some (JStr s)
  end.

(** A property of an object: it is left out when its value gives no
    text. *)
Definition member (key : jsstring) (j : option json)
  : list (jsstring * json) :=
  match j with
  | Some j => [(key, j)]
  | None => []
  end.

Definition jsonOfObject (o : object) : json :=
  JObj (flat_map (fun kv => member (fst kv) (jsonOfValue (snd kv))) o).

Definition jsonOfNode (n : requestNode) : json :=
  JObj [(lit "id", JStr (r_id n));
        (lit "type", JStr (r_type n));
        (lit "data",
         JObj (member (lit "label") (jsonOfValue (r_label n))
               ++ [(lit "config", jsonOfObject (r_config n))]));
        (lit "position",
         JObj [(lit "x", jsonOfNumber (pos_x (r_position n)));
               (lit "y", jsonOfNumber (pos_y (r_position n)))])].

Definition jsonOfEdge (e : requestEdge) : json :=
  JObj (member (lit "id") (jsonOfValue (q_id e))
        ++ [(lit "source", JStr (q_source e));
            (lit "target", JStr (q_target e))]).

(** [JSON.stringify(requestData)]. *)
Definition stringify (r : workflowRequest) : json :=
  JObj [(lit "nodes", JArr (map jsonOfNode (req_nodes r)));
        (lit "edges", JArr (map jsonOfEdge (req_edges r)));
        (lit "user_query", JStr (user_query r))].

(** The member of a JSON object with the given key. *)
Fixpoint lookup (members : list (jsstring * json)) (key : jsstring)
  : option json :=
  match members with
  | [] => None
  | (k, j) :: members' => if eqb k key then Some j else lookup members' key
  end.

Definition jsonMember (j : json) (key : jsstring) : option json :=
  match j with
  | JObj members => lookup members key
  | _ => None
  end.

(** The value found in a JSON value by going down the given keys. *)
Fixpoint jsonPath (j : json) (path : list jsstring) : option json :=
  match path with
  | [] => Some j
  | key :: path' =>
      match jsonMember j key with
      | Some j' => jsonPath j' path'
      | None => None
      end
  end.

(** ** The other handlers *)

(** What is handed to [fetch] as the body. *)
Inductive postBody :=
| JsonBody (text : json)
| FormBody (fileName : jsstring).

(** The state of the component the handlers below read and write, and the
    requests they post, oldest first.  What they write to the console is
    left out. *)
Record ui := Ui {
  nodes : list node;
  edges : list edge;
  selectedNode : option node;
  toasts : list toast;
  isLoading : bool;
  posted : list (jsstring * postBody)
}.

Definition showToast (u : ui) (t : toast) : ui :=
  Ui (nodes u) (edges u) (selectedNode u) (toasts u ++ [t]) (isLoading u)
     (posted u).

Definition setIsLoading (u : ui) (b : bool) : ui :=
  Ui (nodes u) (edges u) (selectedNode u) (toasts u) b (posted u).

Definition post (u : ui) (url : jsstring) (body : postBody) : ui :=
  Ui (nodes u) (edges u) (selectedNode u) (toasts u) (isLoading u)
     (posted u ++ [(url, body)]).

Definition updateNodeDataIn (u : ui) (key : jsstring) (value : jsvalue) : ui :=
  let (ns, sel) := updateNodeData (nodes u) (selectedNode u) key value in
  Ui ns (edges u) sel (toasts u) (isLoading u) (posted u).

(** What comes back from a request that carries JSON: [fetch] rejects, or
    the response says ok or not and its body parses or not.  A body that
    parses to [null] is a case of its own when the response is ok: reading
    a field of it throws, after whatever the handler did before.  When the
    response is not ok the handler reads [detail] first, so that [null]
    goes the way of a body that does not parse.  [jsonField] is the field
    the handler reads from a body that is not [null]
    ([vector_collection_id] or [plan]); it is [Undefined] when the body has
    no such field. *)
Inductive jsonResult :=
| Rejected
| OkJson (jsonField : jsvalue)
| OkNull
| OkNoJson
| NotOkJson (detail : jsvalue)
| NotOkNoJson_.

(** [handleBuildStack]. *)
Definition handleBuildStack (url : jsstring) (u : ui) (resp : jsonResult) : ui :=
  let (shown, valid) := validateWorkflow (nodes u) (edges u) in
  let u := fold_left showToast shown u in
  if negb valid then u
  else
    let u := setIsLoading u true in
    let u := post u (url ++ lit "/workflows/validate")
               (JsonBody (stringify (workflowData (nodes u) (edges u)))) in
    let u :=
      match resp with
      | OkJson _ =>
          showToast u (Toast (Str (lit "Workflow validated successfully!"))
                         (lit "success"))
      | OkNull =>
          (* the toast is shown, then [data.plan] throws *)
          let u :=
            showToast u (Toast (Str (lit "Workflow validated successfully!"))
                           (lit "success")) in
          showToast u
            (errorToast "Backend not available. Check if server is running.")
      | NotOkJson detail =>
          showToast u (Toast (orValue detail (Str (lit "Validation failed")))
                         (lit "error"))
      | Rejected | OkNoJson | NotOkNoJson_ =>
          showToast u
            (errorToast "Backend not available. Check if server is running.")
      end in
    setIsLoading u false.

(** [handleFileUpload]: [file] is the name of [event.target.files[0]], when
    there is one. *)
Definition handleFileUpload (url : jsstring) (u : ui) (file : option jsstring)
    (resp : jsonResult) : ui :=
  match file with
  | None => u
  | Some name =>
      let u := updateNodeDataIn u (lit "filename") (Str name) in
      let u := setIsLoading u true in
      let u := post u (url ++ lit "/documents/upload") (FormBody name) in
      let u :=
        match resp with
        | OkJson vector_collection_id =>
            let u := updateNodeDataIn u (lit "documentId")
                       vector_collection_id in
            let u := updateNodeDataIn u (lit "subtext") (Str name) in
            showToast u (Toast (Str (lit "Document uploaded and processed!"))
                           (lit "success"))
        | NotOkJson detail =>
            showToast u (Toast (orValue detail (Str (lit "Upload failed")))
                           (lit "error"))
        | Rejected | OkNull | OkNoJson | NotOkNoJson_ =>
            showToast u
              (errorToast "Backend not available for document processing")
        end in
      setIsLoading u false
  end.

(** The chat handler with the validation it runs: the toasts shown, the
    request posted and the calls of [setChatHistory]. *)
Definition submitChat (url : jsstring) (u : ui) (query : jsstring)
    (resp : fetchResult) : ui * list event :=
  if negb (truthy (trim query)) then (u, [])
  else
    let (shown, valid) := validateWorkflow (nodes u) (edges u) in
    let u := fold_left showToast shown u in
    if negb valid then (u, [])
    else
      let u := setIsLoading u true in
      let u := post u (url ++ lit "/run_workflow")
                 (JsonBody (stringify (requestData (nodes u) (edges u) query)))
      in
      (setIsLoading u false, handleChatSubmit url query true resp).

(** * Properties *)

(** ** Lists read two elements at a time *)

Section TwoStep.

Variable A : Type.
Variable P : list A -> Prop.
Hypothesis P_nil : P [].
Hypothesis P_one : forall c, P [c].
Hypothesis P_two :
  forall c1 c2 rest, P rest -> P (c2 :: rest) -> P (c1 :: c2 :: rest).

Lemma list_ind_two : forall s, P s.
Proof.
  assert (H : forall s, P s /\ forall c, P (c :: s)).
  { induction s as [|c s [IH1 IH2]].
    - split; [exact P_nil | exact P_one].
    - split; [apply IH2 | intro c0; apply P_two; [exact IH1 | apply IH2]]. }
  intro s. apply H.
Qed.

End TwoStep.

(** ** The splitter *)

Section Split.

Variables a b : N.

Lemma split2_nil : split2 a b [] = [[]].
Proof. reflexivity. Qed.

Lemma split2_two c1 c2 rest :
  split2 a b (c1 :: c2 :: rest) =
  if ((c1 =? a) && (c2 =? b))%N then [] :: split2 a b rest
  else cons_first c1 (split2 a b (c2 :: rest)).
Proof. reflexivity. Qed.

Lemma split2_hit rest :
  split2 a b (a :: b :: rest) = [] :: split2 a b rest.
Proof. rewrite split2_two. now rewrite !N.eqb_refl. Qed.

Lemma split2_miss c1 c2 rest :
  ((c1 =? a) && (c2 =? b))%N = false ->
  split2 a b (c1 :: c2 :: rest) = cons_first c1 (split2 a b (c2 :: rest)).
Proof. intro H. rewrite split2_two. now rewrite H. Qed.

Lemma split2_not_nil s : split2 a b s <> [].
Proof.
  induction s as [| c | c1 c2 rest IH1 IH2] using list_ind_two;
    try discriminate.
  rewrite split2_two. destruct ((c1 =? a) && (c2 =? b))%N; [discriminate|].
  destruct (split2 a b (c2 :: rest)); cbn [cons_first]; discriminate.
Qed.

(** A split in one part found no separator: the part is the whole text. *)
Lemma split2_single s p : split2 a b s = [p] -> p = s.
Proof.
  revert p.
  induction s as [| c | c1 c2 rest IH1 IH2] using list_ind_two; intros p.
  - now intros [= <-].
  - now intros [= <-].
  - rewrite split2_two. destruct ((c1 =? a) && (c2 =? b))%N.
    + intros [= <- H]. now destruct (split2_not_nil _ H).
    + destruct (split2 a b (c2 :: rest)) as [|q qs] eqn:E.
      * now destruct (split2_not_nil _ E).
      * cbn [cons_first]. intros [= <- ->].
        now rewrite (IH2 q eq_refl).
Qed.

(** Splitting a text that goes on: the complete parts of the beginning
    stay, and the splitter resumes from the last part. *)
Lemma split2_app s t :
  split2 a b (s ++ t) =
  removelast (split2 a b s) ++ split2 a b (last (split2 a b s) [] ++ t).
Proof.
  induction s as [| c | c1 c2 rest IH1 IH2] using list_ind_two.
  - reflexivity.
  - reflexivity.
  - destruct ((c1 =? a) && (c2 =? b))%N eqn:E.
    + apply andb_prop in E as [E1 E2].
      apply N.eqb_eq in E1, E2. subst c1 c2.
      change ((a :: b :: rest) ++ t) with (a :: b :: (rest ++ t)).
      rewrite !split2_hit, IH1.
      destruct (split2 a b rest) as [|q qs] eqn:Eq.
      * now destruct (split2_not_nil _ Eq).
      * reflexivity.
    + change ((c1 :: c2 :: rest) ++ t) with (c1 :: c2 :: (rest ++ t)).
      rewrite !(split2_miss _ _ _ E).
      change (c2 :: rest ++ t) with ((c2 :: rest) ++ t). rewrite IH2.
      destruct (split2 a b (c2 :: rest)) as [|p [|q qs]] eqn:Ep.
      * now destruct (split2_not_nil _ Ep).
      * apply split2_single in Ep. subst p.
        cbn [removelast last cons_first app].
        now rewrite (split2_miss _ _ _ E).
      * reflexivity.
Qed.

Lemma removelast_app_r (l l' : list jsstring) :
  l' <> [] -> removelast (l ++ l') = l ++ removelast l'.
Proof. intro H. now apply removelast_app. Qed.

Lemma last_app_r (l l' : list jsstring) d :
  l' <> [] -> last (l ++ l') d = last l' d.
Proof.
  intro H. induction l as [|x l IH]; [reflexivity|].
  cbn [app last]. destruct (l ++ l') eqn:E; [|exact IH].
  apply app_eq_nil in E as [_ ->]. contradiction.
Qed.

End Split.

Lemma feed_cons buf chunk chunks :
  feed buf (chunk :: chunks) =
  (removelast (split2 LF LF (buf ++ List.concat (chunk :: chunks))),
   last (split2 LF LF (buf ++ List.concat (chunk :: chunks))) []).
Proof.
  revert buf chunk.
  induction chunks as [|chunk' chunks IH]; intros buf chunk.
  - cbn [feed List.concat]. now rewrite !app_nil_r.
  - change (feed buf (chunk :: chunk' :: chunks))
      with (let parts := split2 LF LF (buf ++ chunk) in
            let (records, remainder) :=
              feed (last parts []) (chunk' :: chunks) in
            (removelast parts ++ records, remainder)).
    cbv zeta. rewrite IH.
    change (List.concat (chunk :: chunk' :: chunks))
      with (chunk ++ List.concat (chunk' :: chunks)).
    rewrite (app_assoc buf chunk), (split2_app LF LF (buf ++ chunk)).
    rewrite removelast_app_r, last_app_r by apply split2_not_nil.
    reflexivity.
Qed.

Lemma feed_empty_buffer chunks :
  feed [] chunks = (partsOf chunks, remainderOf chunks).
Proof.
  destruct chunks as [|chunk chunks].
  - reflexivity.
  - exact (feed_cons [] chunk chunks).
Qed.

(** C3.  Split associativity: feeding the chunks of a text one at a time
    through the line splitter (append the chunk to the buffer, split on the
    blank line, keep the last part as the new buffer) gives the same complete
    parts in the same order, and the same final remainder, as splitting the
    whole text in one call. *)
Theorem feed_split_associativity (chunks : list jsstring) :
  feed [] chunks =
  (removelast (split2 LF LF (List.concat chunks)),
   last (split2 LF LF (List.concat chunks)) []).
Proof. exact (feed_empty_buffer chunks). Qed.

(** ** The loop of the handler runs on what the splitter gives *)

Lemma processPart_buffer st part : buffer (processPart st part) = buffer st.
Proof.
  destruct st as [text buf status queue out].
  unfold processPart, setBuffer, setAiResponse, setChatHistory, setStatusMsg,
    consoleLog.
  cbn [aiResponse buffer statusMsg chatUpdates console].
  repeat match goal with |- context [if ?c then _ else _] => destruct c end;
    reflexivity.
Qed.

Lemma processPart_setBuffer st v part :
  processPart (setBuffer st v) part = setBuffer (processPart st part) v.
Proof.
  destruct st as [text buf status queue out].
  unfold processPart, setBuffer, setAiResponse, setChatHistory, setStatusMsg,
    consoleLog.
  cbn [aiResponse buffer statusMsg chatUpdates console].
  repeat match goal with |- context [if ?c then _ else _] => destruct c end;
    reflexivity.
Qed.

Lemma processParts_setBuffer parts st v :
  fold_left processPart parts (setBuffer st v) =
  setBuffer (fold_left processPart parts st) v.
Proof.
  revert st. induction parts as [|p parts IH]; intro st; [reflexivity|].
  cbn [fold_left]. now rewrite processPart_setBuffer, IH.
Qed.

Lemma processParts_buffer parts st :
  buffer (fold_left processPart parts st) = buffer st.
Proof.
  revert st. induction parts as [|p parts IH]; intro st; [reflexivity|].
  cbn [fold_left]. now rewrite IH, processPart_buffer.
Qed.

Lemma setBuffer_setBuffer st v w : setBuffer (setBuffer st v) w = setBuffer st w.
Proof. reflexivity. Qed.

Lemma setBuffer_buffer st : setBuffer st (buffer st) = st.
Proof. now destruct st. Qed.

(** The state after the loop, from any state: the parts cut by [feed] are
    processed in order and the remainder is left in the buffer. *)
Lemma loop_feed chunks st :
  fold_left processChunk chunks st =
  setBuffer (fold_left processPart (fst (feed (buffer st) chunks)) st)
            (snd (feed (buffer st) chunks)).
Proof.
  revert st. induction chunks as [|chunk chunks IH]; intro st.
  - cbn [fold_left feed fst snd]. now rewrite setBuffer_buffer.
  - cbn [fold_left feed]. rewrite IH. unfold processChunk.
    rewrite processParts_buffer. cbn [buffer setBuffer].
    destruct (feed (last (split2 LF LF (buffer st ++ chunk)) []) chunks)
      as [records remainder].
    cbn [fst snd]. rewrite fold_left_app, !processParts_setBuffer.
    now rewrite setBuffer_setBuffer.
Qed.

Lemma streamLoop_parts chunks :
  streamLoop chunks =
  setBuffer (fold_left processPart (partsOf chunks) openStream)
            (remainderOf chunks).
Proof.
  unfold streamLoop. rewrite loop_feed.
  change (buffer openStream) with (@nil N).
  now rewrite feed_empty_buffer.
Qed.

(** ** Trimming *)

Lemma trimStart_white ws s :
  forallb isWhiteSpace ws = true -> trimStart (ws ++ s) = trimStart s.
Proof.
  induction ws as [|c ws IH]; [reflexivity|].
  cbn [forallb app trimStart]. intros H.
  apply andb_prop in H as [Hc Hws]. rewrite Hc. now apply IH.
Qed.

Lemma trimStart_all_white ws :
  forallb isWhiteSpace ws = true -> trimStart ws = [].
Proof.
  intro H. rewrite <- (app_nil_r ws). now rewrite trimStart_white.
Qed.

Lemma trimStart_app s t :
  trimStart s <> [] -> trimStart (s ++ t) = trimStart s ++ t.
Proof.
  induction s as [|c s IH]; [now intros []|].
  cbn [app trimStart]. destruct (isWhiteSpace c); [exact IH | reflexivity].
Qed.

Lemma trimStart_empty_app s t :
  trimStart s = [] -> trimStart (s ++ t) = trimStart t.
Proof.
  induction s as [|c s IH]; [reflexivity|].
  cbn [app trimStart]. destruct (isWhiteSpace c); [exact IH | discriminate].
Qed.

Lemma trimStart_length s : List.length (trimStart s) <= List.length s.
Proof.
  induction s as [|c s IH]; [reflexivity|].
  cbn [trimStart]. destruct (isWhiteSpace c); cbn [List.length]; lia.
Qed.

Lemma trimStart_idem s : trimStart (trimStart s) = trimStart s.
Proof.
  induction s as [|c s IH]; [reflexivity|].
  cbn [trimStart]. destruct (isWhiteSpace c) eqn:E; [exact IH|].
  cbn [trimStart]. now rewrite E.
Qed.

Lemma trimStart_firstn k r :
  trimStart r = r -> trimStart (firstn k r) = firstn k r.
Proof.
  destruct r as [|c r]; [now rewrite firstn_nil|].
  destruct k as [|k]; [reflexivity|].
  cbn [trimStart firstn]. destruct (isWhiteSpace c); [|reflexivity].
  intro H. pose proof (trimStart_length r) as L.
  rewrite H in L. cbn [List.length] in L. lia.
Qed.

Lemma forallb_rev (f : N -> bool) l :
  forallb f l = true -> forallb f (rev l) = true.
Proof.
  rewrite !forallb_forall. intros H x Hx. apply H. now apply in_rev.
Qed.

Lemma trimEnd_white s ws :
  forallb isWhiteSpace ws = true -> trimEnd (s ++ ws) = trimEnd s.
Proof.
  intro H. unfold trimEnd. rewrite rev_app_distr.
  now rewrite trimStart_white by now apply forallb_rev.
Qed.

Lemma trimEnd_idem s : trimEnd (trimEnd s) = trimEnd s.
Proof. unfold trimEnd. now rewrite rev_involutive, trimStart_idem. Qed.

(** A string without trailing white space keeps none when its beginning is
    cut off. *)
Lemma trimEnd_substring s n :
  trimEnd s = s -> trimEnd (substring s n) = substring s n.
Proof.
  intro H. unfold substring.
  destruct (Nat.le_gt_cases n (List.length s)) as [L|L].
  - assert (Hr : trimStart (rev s) = rev s).
    { unfold trimEnd in H. rewrite <- H at 2. now rewrite rev_involutive. }
    assert (E : skipn n s = rev (firstn (List.length s - n) (rev s))).
    { rewrite firstn_rev, rev_involutive. f_equal. lia. }
    unfold trimEnd. rewrite E at 1. rewrite rev_involutive.
    rewrite trimStart_firstn by exact Hr. now rewrite <- E.
  - rewrite skipn_all2 by lia. reflexivity.
Qed.

Lemma trim_white_start ws s :
  forallb isWhiteSpace ws = true -> trim (ws ++ s) = trim s.
Proof. intro H. unfold trim. now rewrite trimStart_white. Qed.

Lemma trim_white_end s ws :
  forallb isWhiteSpace ws = true -> trim (s ++ ws) = trim s.
Proof.
  intro H. unfold trim. destruct (trimStart s) as [|c s'] eqn:E.
  - rewrite trimStart_empty_app by exact E.
    now rewrite trimStart_all_white.
  - rewrite trimStart_app by (rewrite E; discriminate).
    rewrite E. now apply trimEnd_white.
Qed.

Lemma trimEnd_trim s : trimEnd (trim s) = trim s.
Proof. unfold trim. apply trimEnd_idem. Qed.

(** ** Global replacement of a pair of code units *)

Section Replace.

Variables a b : N.
Variable r : jsstring.

Lemma replace2_two c1 c2 rest :
  replace2 a b r (c1 :: c2 :: rest) =
  if ((c1 =? a) && (c2 =? b))%N then r ++ replace2 a b r rest
  else c1 :: replace2 a b r (c2 :: rest).
Proof. reflexivity. Qed.

Lemma occurs2_two c1 c2 rest :
  occurs2 a b (c1 :: c2 :: rest) =
  (((c1 =? a) && (c2 =? b))%N || occurs2 a b (c2 :: rest)).
Proof. reflexivity. Qed.

(** Every occurrence of the pair is replaced... *)
Lemma replace2_occurrence p q :
  a <> b ->
  replace2 a b r (p ++ a :: b :: q) = replace2 a b r p ++ r ++ replace2 a b r q.
Proof.
  intro Hab.
  induction p as [| c | c1 c2 rest IH1 IH2] using list_ind_two.
  - cbn [app]. rewrite replace2_two. now rewrite !N.eqb_refl.
  - cbn [app]. rewrite !replace2_two, !N.eqb_refl.
    replace ((c =? a) && (a =? b))%N with false; [reflexivity|].
    symmetry. apply andb_false_intro2. now apply N.eqb_neq.
  - change ((c1 :: c2 :: rest) ++ a :: b :: q)
      with (c1 :: c2 :: (rest ++ a :: b :: q)).
    rewrite !replace2_two. destruct ((c1 =? a) && (c2 =? b))%N.
    + rewrite IH1. now rewrite app_assoc.
    + change (c2 :: rest ++ a :: b :: q) with ((c2 :: rest) ++ a :: b :: q).
      now rewrite IH2.
Qed.

(** ... and nothing else is touched. *)
Lemma replace2_no_occurrence s :
  occurs2 a b s = false -> replace2 a b r s = s.
Proof.
  induction s as [| c | c1 c2 rest IH1 IH2] using list_ind_two;
    try reflexivity.
  rewrite occurs2_two, replace2_two. intro H.
  apply orb_false_elim in H as [H1 H2]. rewrite H1. now rewrite IH2.
Qed.

Lemma join_cons_first sep c ps :
  ps <> [] -> join sep (cons_first c ps) = c :: join sep ps.
Proof. destruct ps as [|p [|q qs]]; [now intros []| |]; reflexivity. Qed.

(** Replacing all occurrences is cutting at each of them and gluing the
    parts with the replacement. *)
Lemma replace2_join_split s : replace2 a b r s = join r (split2 a b s).
Proof.
  induction s as [| c | c1 c2 rest IH1 IH2] using list_ind_two;
    try reflexivity.
  rewrite replace2_two, split2_two. destruct ((c1 =? a) && (c2 =? b))%N.
  - rewrite IH1. destruct (split2 a b rest) eqn:E; [|reflexivity].
    now destruct (split2_not_nil _ _ _ E).
  - rewrite IH2. now rewrite join_cons_first by apply split2_not_nil.
Qed.

End Replace.

(** ** Prefixes *)

Lemma startsWith_split s p :
  startsWith s p = true -> s = p ++ substring s (List.length p).
Proof.
  revert s. induction p as [|x p IH]; intros s; [reflexivity|].
  destruct s as [|c s]; [discriminate|].
  cbn [startsWith]. intro H. apply andb_prop in H as [Hc Hs].
  apply N.eqb_eq in Hc. subst x. cbn [List.length app substring skipn].
  f_equal. exact (IH s Hs).
Qed.

Lemma startsWith_truthy s p :
  p <> [] -> startsWith s p = true -> truthy s = true.
Proof.
  destruct p as [|x p]; [now intros []|]. intros _.
  destruct s; [discriminate | reflexivity].
Qed.

(** ** One record *)

Lemma processPart_trim st part part' :
  trim part = trim part' -> processPart st part = processPart st part'.
Proof. unfold processPart. now intros ->. Qed.

Lemma processPart_data st part :
  startsWith (trim part) (lit "data: ") = true ->
  processPart st part =
  setChatHistory
    (setAiResponse st (aiResponse st ++ unescape (substring (trim part) 6)))
    showAiResponse.
Proof.
  intro H. unfold processPart.
  rewrite (startsWith_truthy _ (lit "data: ")) by (discriminate || exact H).
  cbn [negb]. now rewrite H.
Qed.

Lemma startsWith_data_not_status s :
  startsWith s (lit "status: ") = true ->
  startsWith s (lit "data: ") = false.
Proof.
  destruct s as [|c s]; [discriminate|]. cbn [startsWith lit].
  change (N_of_ascii "s") with 115%N. change (N_of_ascii "d") with 100%N.
  cbn [list_ascii_of_string map startsWith].
  intro H. apply andb_prop in H as [H _]. apply N.eqb_eq in H. now subst c.
Qed.

Lemma processPart_status st part :
  startsWith (trim part) (lit "status: ") = true ->
  processPart st part =
  consoleLog (setStatusMsg st (substring (trim part) 8))
             [lit "Status:"; substring (trim part) 8].
Proof.
  intro H. unfold processPart.
  rewrite (startsWith_truthy _ (lit "status: ")) by (discriminate || exact H).
  cbn [negb]. now rewrite (startsWith_data_not_status _ H), H.
Qed.

Lemma processPart_unknown st part :
  startsWith (trim part) (lit "data: ") = false ->
  startsWith (trim part) (lit "status: ") = false ->
  startsWith (trim part) (lit "final: ") = false ->
  processPart st part = st.
Proof.
  intros H1 H2 H3. unfold processPart. rewrite H1, H2, H3.
  now destruct (negb (truthy (trim part))).
Qed.

Lemma processPart_sameText s1 s2 part :
  sameText s1 s2 -> sameText (processPart s1 part) (processPart s2 part).
Proof.
  destruct s1 as [t1 b1 m1 q1 o1], s2 as [t2 b2 m2 q2 o2].
  unfold sameText. cbn [aiResponse chatUpdates]. intros [<- <-].
  unfold processPart, setBuffer, setAiResponse, setChatHistory, setStatusMsg,
    consoleLog.
  cbn [aiResponse buffer statusMsg chatUpdates console].
  repeat match goal with |- context [if ?c then _ else _] => destruct c end;
    split; reflexivity.
Qed.

Lemma processParts_sameText parts s1 s2 :
  sameText s1 s2 ->
  sameText (fold_left processPart parts s1) (fold_left processPart parts s2).
Proof.
  revert s1 s2. induction parts as [|p parts IH]; intros s1 s2 H; [exact H|].
  cbn [fold_left]. apply IH. now apply processPart_sameText.
Qed.

Lemma finish_sameText s1 s2 :
  sameText s1 s2 -> buffer s1 = buffer s2 ->
  chatUpdates (complete (flushBuffer s1)) =
  chatUpdates (complete (flushBuffer s2)).
Proof.
  destruct s1 as [t1 b1 m1 q1 o1], s2 as [t2 b2 m2 q2 o2].
  unfold sameText. cbn [aiResponse chatUpdates buffer]. intros [<- <-] <-.
  unfold complete, resolvedText, flushBuffer, setAiResponse, setChatHistory.
  cbn [aiResponse buffer statusMsg chatUpdates console].
  repeat match goal with |- context [if ?c then _ else _] => destruct c end;
    reflexivity.
Qed.

Lemma flushBuffer_trim st part part' :
  trim part = trim part' ->
  aiResponse (flushBuffer (setBuffer st part)) =
  aiResponse (flushBuffer (setBuffer st part')).
Proof.
  intro H. destruct st as [text buf status queue out].
  unfold flushBuffer, setBuffer, setAiResponse.
  cbn [aiResponse buffer statusMsg chatUpdates console]. rewrite H.
  repeat match goal with |- context [if ?c then _ else _] => destruct c end;
    reflexivity.
Qed.

Lemma flushBuffer_data st :
  startsWith (trim (buffer st)) (lit "data: ") = true ->
  flushBuffer st =
  setAiResponse st (aiResponse st ++ unescape (substring (trim (buffer st)) 6)).
Proof.
  intro H. unfold flushBuffer.
  rewrite (startsWith_truthy _ (lit "data: ")) by (discriminate || exact H).
  now rewrite H.
Qed.

Lemma flushBuffer_not_data_final st :
  startsWith (trim (buffer st)) (lit "data: ") = false ->
  startsWith (trim (buffer st)) (lit "final: ") = false ->
  flushBuffer st = st.
Proof.
  intros H1 H2. unfold flushBuffer. rewrite H1, H2.
  now destruct (truthy (trim (buffer st))).
Qed.

(** C7.  Unescaping.  A record whose trimmed form starts with the prefix of
    a Content record adds to the message text its payload with every
    backslash followed by [n] turned into one line feed: the added text is
    the payload cut at each such pair and glued with line feeds, a payload
    [p ++ backslash n ++ q] gives the unescaped [p], a line feed and the
    unescaped [q], and a payload without the pair is added as it is.  The
    same holds when the record is what is left in the buffer at the end of
    the stream. *)
Theorem content_payload_unescaped (st : session) (part : jsstring) :
  startsWith (trim part) (lit "data: ") = true ->
  let payload := substring (trim part) 6 in
  aiResponse (processPart st part) = aiResponse st ++ unescape payload
  /\ aiResponse (flushBuffer (setBuffer st part)) =
     aiResponse st ++ unescape payload
  /\ unescape payload = join [LF] (split2 BACKSLASH LOWER_N payload)
  /\ (forall p q, payload = p ++ BACKSLASH :: LOWER_N :: q ->
        unescape payload = unescape p ++ LF :: unescape q)
  /\ (occurs2 BACKSLASH LOWER_N payload = false -> unescape payload = payload).
Proof.
  intros H payload. repeat split.
  - now rewrite (processPart_data st part H).
  - now rewrite flushBuffer_data by exact H.
  - apply replace2_join_split.
  - intros p q ->. unfold unescape.
    now rewrite replace2_occurrence by discriminate.
  - apply replace2_no_occurrence.
Qed.

Lemma content_payload_unescaped_witness :
  startsWith
    (trim (lit "data: line1" ++ [BACKSLASH; LOWER_N] ++ lit "line2"))
    (lit "data: ") = true
  /\ aiResponse
       (processPart openStream
          (lit "data: line1" ++ [BACKSLASH; LOWER_N] ++ lit "line2")) =
     lit "line1" ++ [LF] ++ lit "line2".
Proof.
  split; [reflexivity|].
  exact (proj1 (content_payload_unescaped openStream
                  (lit "data: line1" ++ [BACKSLASH; LOWER_N] ++ lit "line2")
                  eq_refl)).
Defined.

(** C8.  Unknown-prefix tolerance.  A record whose trimmed form starts with
    none of the three prefixes leaves the state as it was: neither the
    message text nor the history queue changes, the records around it are
    processed as if it were not there, and left in the buffer at the end of
    the stream it is ignored as well. *)
Theorem unknown_record_ignored (st : session) (part : jsstring) :
  startsWith (trim part) (lit "data: ") = false ->
  startsWith (trim part) (lit "status: ") = false ->
  startsWith (trim part) (lit "final: ") = false ->
  processPart st part = st
  /\ (forall before after st0,
        fold_left processPart (before ++ part :: after) st0 =
        fold_left processPart (before ++ after) st0)
  /\ flushBuffer (setBuffer st part) = setBuffer st part.
Proof.
  intros H1 H2 H3. repeat split.
  - now apply processPart_unknown.
  - intros before after st0. rewrite !fold_left_app. cbn [fold_left].
    now rewrite processPart_unknown.
  - now apply flushBuffer_not_data_final.
Qed.

Lemma unknown_record_ignored_witness :
  startsWith (trim (lit "ping: keepalive")) (lit "data: ") = false
  /\ processPart openStream (lit "ping: keepalive") = openStream
  /\ fold_left processPart
       ([lit "data: a"] ++ lit "ping: keepalive" :: [lit "data: b"])
       openStream =
     fold_left processPart ([lit "data: a"] ++ [lit "data: b"]) openStream.
Proof.
  destruct (unknown_record_ignored openStream (lit "ping: keepalive")
              eq_refl eq_refl eq_refl) as (H1 & H2 & _).
  split; [reflexivity|]. split; [exact H1|].
  exact (H2 [lit "data: a"] [lit "data: b"] openStream).
Defined.

(** C9.  Status-record noninterference.  A record whose trimmed form starts
    with the Status prefix only sets [statusMsg] and writes it to the
    console: the message text, the buffer and the queue of history updates
    stay as they were, so a stream with the record and the stream without it
    publish the same things, up to and including the last one.  Left in the
    buffer at the end of the stream the record does nothing at all. *)
Theorem status_record_noninterference (st : session) (part : jsstring) :
  startsWith (trim part) (lit "status: ") = true ->
  processPart st part =
    consoleLog (setStatusMsg st (substring (trim part) 8))
               [lit "Status:"; substring (trim part) 8]
  /\ aiResponse (processPart st part) = aiResponse st
  /\ buffer (processPart st part) = buffer st
  /\ chatUpdates (processPart st part) = chatUpdates st
  /\ (forall before after st0,
        let s1 := fold_left processPart (before ++ part :: after) st0 in
        let s2 := fold_left processPart (before ++ after) st0 in
        sameText s1 s2
        /\ chatUpdates (complete (flushBuffer s1)) =
           chatUpdates (complete (flushBuffer s2)))
  /\ flushBuffer (setBuffer st part) = setBuffer st part.
Proof.
  intro H. pose proof (processPart_status st part H) as E.
  split; [exact E|]. rewrite E.
  do 3 (split; [reflexivity|]). split.
  - intros before after st0 s1 s2. subst s1 s2.
    rewrite !fold_left_app. cbn [fold_left].
    assert (S : sameText
                  (processPart (fold_left processPart before st0) part)
                  (fold_left processPart before st0)).
    { rewrite (processPart_status _ part H). split; reflexivity. }
    split.
    + now apply processParts_sameText.
    + apply finish_sameText.
      * now apply processParts_sameText.
      * repeat (rewrite processParts_buffer || rewrite processPart_buffer).
        reflexivity.
  - apply flushBuffer_not_data_final.
    + now apply startsWith_data_not_status.
    + cbn [buffer setBuffer]. revert H. generalize (trim part) as s.
      intros s. destruct s as [|c s]; [discriminate|].
      cbn [startsWith lit]. change (N_of_ascii "s") with 115%N.
      change (N_of_ascii "f") with 102%N.
      cbn [list_ascii_of_string map startsWith].
      intro H. apply andb_prop in H as [H _].
      apply N.eqb_eq in H. now subst c.
Qed.

Lemma status_record_noninterference_witness :
  startsWith (trim (lit "status: done")) (lit "status: ") = true
  /\ chatUpdates
       (fold_left processPart
          [lit "data: The answer is 42."; lit "status: done"] openStream) =
     chatUpdates
       (fold_left processPart [lit "data: The answer is 42."] openStream).
Proof.
  split; [reflexivity|].
  destruct (status_record_noninterference openStream (lit "status: done")
              eq_refl) as (_ & _ & _ & _ & H & _).
  exact (proj2 (proj1 (H [lit "data: The answer is 42."] [] openStream))).
Defined.

Lemma data_payload_clean line :
  trimEnd line = line ->
  startsWith line (lit "data: ") = true ->
  substring line 6 <> [] /\ trimEnd (substring line 6) = substring line 6.
Proof.
  intros Hclean Hdata. split; [|now apply trimEnd_substring].
  intro Hempty. pose proof (startsWith_split _ _ Hdata) as E.
  change (List.length (lit "data: ")) with 6 in E.
  rewrite Hempty in E. subst line. discriminate Hclean.
Qed.

(** C10.  Records are trimmed before they are classified.  A record made
    of the Content prefix and a payload that is empty or all white space is
    trimmed to [data:], which is none of the three prefixes: it leaves the
    state as it was, message text and history queue included, in the loop
    and at the end of the stream.  White space after any record changes
    nothing, and the payload taken from a Content record is not empty and
    has no white space at its end. *)
Theorem blank_data_record_ignored
    (st : session) (ws1 payload part ws : jsstring) :
  forallb isWhiteSpace ws1 = true ->
  forallb isWhiteSpace payload = true ->
  forallb isWhiteSpace ws = true ->
  processPart st (ws1 ++ lit "data: " ++ payload) = st
  /\ flushBuffer (setBuffer st (ws1 ++ lit "data: " ++ payload)) =
     setBuffer st (ws1 ++ lit "data: " ++ payload)
  /\ processPart st (part ++ ws) = processPart st part
  /\ aiResponse (flushBuffer (setBuffer st (part ++ ws))) =
     aiResponse (flushBuffer (setBuffer st part))
  /\ (startsWith (trim part) (lit "data: ") = true ->
      substring (trim part) 6 <> []
      /\ trimEnd (substring (trim part) 6) = substring (trim part) 6).
Proof.
  intros H1 H2 H3.
  assert (T : trim (ws1 ++ lit "data: " ++ payload) = lit "data:").
  { rewrite trim_white_start by exact H1.
    change (lit "data: " ++ payload) with (lit "data:" ++ 32%N :: payload).
    now rewrite trim_white_end by (cbn [forallb]; now rewrite H2). }
  split; [|split; [|split; [|split]]].
  - rewrite (processPart_trim st _ (lit "data:")) by exact T.
    now apply processPart_unknown.
  - apply flushBuffer_not_data_final; cbn [buffer setBuffer]; now rewrite T.
  - apply processPart_trim. now apply trim_white_end.
  - apply flushBuffer_trim. now apply trim_white_end.
  - apply data_payload_clean. apply trimEnd_trim.
Qed.

Lemma blank_data_record_ignored_witness :
  forallb isWhiteSpace [9%N] = true
  /\ processPart openStream ([9%N] ++ lit "data: " ++ [32%N; 160%N]) =
     openStream
  /\ processPart openStream (lit "data: a" ++ [32%N; 10%N]) =
     processPart openStream (lit "data: a").
Proof.
  destruct (blank_data_record_ignored openStream [9%N] [32%N; 160%N]
              (lit "data: a") [32%N; 10%N] eq_refl eq_refl eq_refl)
    as (H1 & _ & H3 & _).
  split; [reflexivity|]. split; [exact H1 | exact H3].
Defined.

(** ** Chains *)

Section Chain.

Variable R : jsstring -> jsstring -> Prop.

Lemma chain_snoc l x y :
  chain R (l ++ [x]) -> R x y -> chain R (l ++ [x; y]).
Proof.
  intros H Hxy. induction l as [|a l IH].
  - cbn. auto.
  - destruct l as [|c l]; cbn [app chain] in *; intuition.
Qed.

Lemma chain_last_pair l x y : chain R (l ++ [x; y]) -> R x y.
Proof.
  induction l as [|a l IH].
  - cbn. tauto.
  - destruct l as [|c l]; cbn [app chain] in *; intuition.
Qed.

Lemma chain_front l x y : chain R (l ++ [x; y]) -> chain R (l ++ [x]).
Proof.
  induction l as [|a l IH].
  - cbn. tauto.
  - destruct l as [|c l]; cbn [app chain] in *; intuition.
Qed.

Hypothesis R_trans : forall x y z, R x y -> R y z -> R x z.

Lemma chain_move_last l x y :
  chain R (l ++ [x]) -> R x y -> chain R (l ++ [y]).
Proof.
  intros H Hxy. induction l as [|a l IH].
  - cbn. auto.
  - destruct l as [|c l]; cbn [app chain] in *; intuition eauto.
Qed.

End Chain.

Lemma chain_impl (R R' : jsstring -> jsstring -> Prop) l :
  (forall x y, R x y -> R' x y) -> chain R l -> chain R' l.
Proof.
  intro H. induction l as [|a l IH]; [trivial|].
  destruct l as [|c l]; cbn [chain] in *; intuition.
Qed.

Lemma prefixOf_refl s : prefixOf s s.
Proof. exists []. now rewrite app_nil_r. Qed.

Lemma prefixOf_nil s : prefixOf [] s.
Proof. now exists s. Qed.

Lemma prefixOf_app s t : prefixOf s (s ++ t).
Proof. now exists t. Qed.

Lemma prefixOf_trans x y z : prefixOf x y -> prefixOf y z -> prefixOf x z.
Proof. intros [t ->] [u ->]. exists (t ++ u). now rewrite app_assoc. Qed.

Lemma prefixOf_length x y : prefixOf x y -> List.length x <= List.length y.
Proof. intros [t ->]. rewrite length_app. lia. Qed.

Lemma truthy_false s : truthy s = false -> s = [].
Proof. now destruct s. Qed.

(** ** The history while a reply streams *)

Lemma replaceLastAi_snoc m prev x :
  replaceLastAi m (prev ++ [x]) = prev ++ [if isAi x then m else x].
Proof.
  induction prev as [|y prev IH]; [cbn; now destruct (isAi x)|].
  cbn [app replaceLastAi]. destruct (prev ++ [x]) eqn:E.
  - now destruct prev.
  - now rewrite IH.
Qed.

Lemma last_cons_any (x : jsstring) l d d' :
  last (x :: l) d = last (x :: l) d'.
Proof.
  revert x. induction l as [|y l IH]; intro x; [reflexivity|].
  change (last (y :: l) d = last (y :: l) d'). apply IH.
Qed.

Lemma lastContent_snoc prev m : lastContent (prev ++ [m]) = content m.
Proof. unfold lastContent. now rewrite rev_unit. Qed.

(** *** React, schedule by schedule *)

Lemma resolve_repeat current us prev :
  resolve prev us (repeat current (List.length us)) =
  snapshots current prev us.
Proof.
  revert prev. induction us as [|u us IH]; intro prev; [reflexivity|].
  cbn [List.length repeat resolve snapshots]. now rewrite IH.
Qed.

Lemma resolved_repeat current us prev :
  resolved prev us (repeat current (List.length us)) = runNow current prev us.
Proof.
  revert prev. induction us as [|u us IH]; intro prev; [reflexivity|].
  cbn [List.length repeat resolved]. now rewrite IH.
Qed.

Lemma resolve_app us vs rs ts prev :
  List.length us = List.length rs ->
  resolve prev (us ++ vs) (rs ++ ts) =
  resolve prev us rs ++ resolve (resolved prev us rs) vs ts.
Proof.
  revert rs prev. induction us as [|u us IH]; intros [|r rs] prev H;
    try discriminate; [reflexivity|].
  cbn [app resolve resolved]. rewrite IH by (cbn in H; lia). reflexivity.
Qed.

Lemma resolved_app us vs rs ts prev :
  List.length us = List.length rs ->
  resolved prev (us ++ vs) (rs ++ ts) =
  resolved (resolved prev us rs) vs ts.
Proof.
  revert rs prev. induction us as [|u us IH]; intros [|r rs] prev H;
    try discriminate; [reflexivity|].
  cbn [app resolved]. apply IH. cbn in H. lia.
Qed.

Lemma last_resolve us rs prev :
  last (resolve prev us rs) prev = resolved prev us rs.
Proof.
  revert rs prev. induction us as [|u us IH]; intros [|r rs] prev;
    try reflexivity.
  cbn [resolve resolved]. rewrite <- IH.
  destruct (resolve (runUpdater r prev u) us rs) as [|h hs] eqn:E;
    [reflexivity|].
  change (last (runUpdater r prev u :: h :: hs) prev) with (last (h :: hs) prev).
  clear. revert h. induction hs as [|h' hs IH]; intro h; [reflexivity|].
  change (last (h' :: hs) prev = last (h' :: hs) (runUpdater r prev u)).
  apply IH.
Qed.

(** What React shows under a schedule is what the updaters give, each run
    with the value the schedule lets it read. *)
Lemma react_resolve trace sched current pending prev :
  react sched current pending prev trace =
  resolve prev (pending ++ callsOf trace)
    (reads sched current (List.length pending) trace).
Proof.
  revert sched current pending prev.
  induction trace as [|e trace IH]; intros sched current pending prev.
  - cbn [react callsOf reads]. rewrite app_nil_r. now rewrite resolve_repeat.
  - cbn [react reads]. set (k := hd 0 sched).
    assert (L : List.length (firstn k pending) =
                Nat.min k (List.length pending)) by apply length_firstn.
    assert (S : List.length (skipn k pending) =
                List.length pending - Nat.min k (List.length pending))
      by (rewrite length_skipn; lia).
    replace (pending ++ callsOf (e :: trace))
      with (firstn k pending ++ (skipn k pending ++ callsOf (e :: trace)))
      by (now rewrite app_assoc, firstn_skipn).
    rewrite resolve_app by (now rewrite repeat_length).
    rewrite <- L, resolve_repeat, resolved_repeat. f_equal.
    destruct e as [v | u]; rewrite IH; cbn [callsOf].
    + now rewrite S, L.
    + rewrite length_app, S, L. cbn [List.length].
      now rewrite <- app_assoc.
Qed.

Lemma runUpdaters_resolved sched prev trace :
  runUpdaters sched prev trace =
  resolved prev (callsOf trace) (reads sched [] 0 trace).
Proof.
  unfold runUpdaters. rewrite react_resolve. apply last_resolve.
Qed.

(** *** The values a schedule lets the updaters read *)

Lemma prefixOf_antisym x y : prefixOf x y -> prefixOf y x -> x = y.
Proof.
  intros [t ->] [u H]. apply (f_equal (@List.length N)) in H.
  rewrite !length_app in H. destruct t; [now rewrite app_nil_r|].
  cbn [List.length] in H. lia.
Qed.

Lemma growing_final trace current :
  growing current trace -> prefixOf current (finalValue current trace).
Proof.
  revert current. induction trace as [|[v|u] trace IH]; intros current H.
  - apply prefixOf_refl.
  - destruct H as [H1 H2]. exact (prefixOf_trans _ _ _ H1 (IH v H2)).
  - now apply IH.
Qed.

Lemma finalValue_app t1 t2 current :
  finalValue current (t1 ++ t2) = finalValue (finalValue current t1) t2.
Proof.
  revert current. induction t1 as [|[v|u] t1 IH]; intro current; cbn; auto.
Qed.

Lemma callValues_app t1 t2 current :
  callValues current (t1 ++ t2) =
  callValues current t1 ++ callValues (finalValue current t1) t2.
Proof.
  revert current. induction t1 as [|[v|u] t1 IH]; intro current;
    cbn [app callValues finalValue]; [reflexivity | apply IH |].
  now rewrite IH.
Qed.

Lemma callsOf_app t1 t2 : callsOf (t1 ++ t2) = callsOf t1 ++ callsOf t2.
Proof.
  induction t1 as [|[v|u] t1 IH]; cbn [app callsOf]; [reflexivity | exact IH|].
  now rewrite IH.
Qed.

Lemma growing_app t1 t2 current :
  growing current (t1 ++ t2) <->
  growing current t1 /\ growing (finalValue current t1) t2.
Proof.
  revert current. induction t1 as [|[v|u] t1 IH]; intro current;
    cbn [app growing finalValue].
  - tauto.
  - rewrite IH. tauto.
  - apply IH.
Qed.

Lemma chain_cons_bound (R : jsstring -> jsstring -> Prop) x l :
  Forall (R x) l -> chain R l -> chain R (x :: l).
Proof.
  intros B C. destruct l as [|y l]; [exact I|].
  split; [now inversion B | exact C].
Qed.

Lemma chain_tail (R : jsstring -> jsstring -> Prop) x l :
  chain R (x :: l) -> chain R l.
Proof. destruct l as [|y l]; [trivial | now intros [_ H]]. Qed.

Lemma chain_repeat_app x n l :
  Forall (prefixOf x) l -> chain prefixOf l ->
  chain prefixOf (repeat x n ++ l).
Proof.
  intros B C. induction n as [|n IH]; [exact C|].
  cbn [repeat app]. apply chain_cons_bound; [|exact IH].
  apply Forall_app. split; [|exact B].
  clear. induction n; constructor; [apply prefixOf_refl | assumption].
Qed.

Lemma Forall_firstn_skipn (P : jsstring -> Prop) n l :
  Forall P l -> Forall P (firstn n l) /\ Forall P (skipn n l).
Proof.
  intro H. rewrite <- (firstn_skipn n l) in H. now apply Forall_app in H.
Qed.

Lemma Forall2_repeat current l :
  Forall (fun c => prefixOf c current) l ->
  Forall2 prefixOf l (repeat current (List.length l)).
Proof.
  intro H. induction H; cbn [List.length repeat]; constructor; assumption.
Qed.

(** Under any schedule an updater reads a value that begins with the one
    [aiResponse] had at the call and with which the last value begins, and
    the values read one after the other grow. *)
Lemma reads_bounds trace sched current lows :
  Forall (fun c => prefixOf c current) lows ->
  growing current trace ->
  Forall2 prefixOf (lows ++ callValues current trace)
    (reads sched current (List.length lows) trace)
  /\ Forall (fun r => prefixOf current r
                      /\ prefixOf r (finalValue current trace))
       (reads sched current (List.length lows) trace)
  /\ chain prefixOf (reads sched current (List.length lows) trace).
Proof.
  revert sched current lows.
  induction trace as [|e trace IH]; intros sched current lows B G.
  - cbn [reads callValues finalValue]. rewrite app_nil_r.
    split; [|split].
    + now apply Forall2_repeat.
    + apply Forall_forall. intros r Hr. apply repeat_spec in Hr. subst r.
      split; apply prefixOf_refl.
    + rewrite <- (app_nil_r (repeat _ _)).
      apply chain_repeat_app; [constructor | exact I].
  - cbn [reads]. set (k := Nat.min (hd 0 sched) (List.length lows)).
    assert (Lf : List.length (firstn k lows) = k)
      by (rewrite length_firstn; subst k; lia).
    assert (Ls : List.length (skipn k lows) = List.length lows - k)
      by apply length_skipn.
    assert (Bf : Forall2 prefixOf (firstn k lows) (repeat current k)).
    { rewrite <- Lf at 2. apply Forall2_repeat.
      now apply Forall_firstn_skipn. }
    assert (Bs : Forall (fun c => prefixOf c current) (skipn k lows))
      by now apply Forall_firstn_skipn.
    assert (F : prefixOf current (finalValue current (e :: trace)))
      by now apply growing_final.
    assert (Rk : Forall (fun r => prefixOf current r
                           /\ prefixOf r (finalValue current (e :: trace)))
                   (repeat current k)).
    { apply Forall_forall. intros r Hr. apply repeat_spec in Hr. subst r.
      split; [apply prefixOf_refl | exact F]. }
    rewrite <- (firstn_skipn k lows) at 1. rewrite <- app_assoc.
    destruct e as [v | u]; cbn [callValues finalValue growing] in *.
    + destruct G as [G1 G2].
      destruct (IH (tl sched) v (skipn k lows)) as (A1 & A2 & A3);
        [|exact G2|].
      { eapply Forall_impl; [|exact Bs]. intros c Hc.
        exact (prefixOf_trans _ _ _ Hc G1). }
      rewrite Ls in A1, A2, A3. split; [|split].
      * now apply Forall2_app.
      * apply Forall_app. split; [exact Rk|].
        eapply Forall_impl; [|exact A2]. intros r [H1 H2].
        split; [exact (prefixOf_trans _ _ _ G1 H1) | exact H2].
      * apply chain_repeat_app; [|exact A3].
        eapply Forall_impl; [|exact A2]. intros r [H1 _].
        exact (prefixOf_trans _ _ _ G1 H1).
    + destruct (IH (tl sched) current (skipn k lows ++ [current]))
        as (A1 & A2 & A3); [|exact G|].
      { apply Forall_app. split; [exact Bs|].
        constructor; [apply prefixOf_refl | constructor]. }
      rewrite length_app, Ls in A1, A2, A3. cbn [List.length] in A1, A2, A3.
      rewrite <- app_assoc in A1. cbn [app] in A1. split; [|split].
      * now apply Forall2_app.
      * apply Forall_app. split; [exact Rk | exact A2].
      * apply chain_repeat_app; [|exact A3].
        eapply Forall_impl; [|exact A2]. now intros r [H1 _].
Qed.

(** *** The history of a stream, whatever the schedule *)

Lemma resolve_shows rs prev b :
  resolve (prev ++ [inProgress b]) (repeat showAiResponse (List.length rs)) rs
  = map (fun r => prev ++ [inProgress r]) rs.
Proof.
  revert b. induction rs as [|r rs IH]; intro b; [reflexivity|].
  cbn [List.length repeat resolve map].
  change (runUpdater r (prev ++ [inProgress b]) showAiResponse)
    with (replaceLastAi (inProgress r) (prev ++ [inProgress b])).
  rewrite replaceLastAi_snoc.
  change (isAi (inProgress b)) with true. cbv iota. now rewrite IH.
Qed.

Lemma last_cons (x : jsstring) l d : last (x :: l) d = last l x.
Proof.
  destruct l as [|y l]; [reflexivity|].
  change (last (x :: y :: l) d) with (last (y :: l) d).
  apply last_cons_any.
Qed.

Lemma resolved_shows rs prev b :
  resolved (prev ++ [inProgress b]) (repeat showAiResponse (List.length rs)) rs
  = prev ++ [inProgress (last rs b)].
Proof.
  revert b. induction rs as [|r rs IH]; intro b; [reflexivity|].
  cbn [List.length repeat resolved].
  change (runUpdater r (prev ++ [inProgress b]) showAiResponse)
    with (replaceLastAi (inProgress r) (prev ++ [inProgress b])).
  rewrite replaceLastAi_snoc.
  change (isAi (inProgress b)) with true. cbv iota.
  now rewrite IH, last_cons.
Qed.

Lemma Forall2_last (R : jsstring -> jsstring -> Prop) l l' d d' :
  Forall2 R l l' -> l <> [] -> R (last l d) (last l' d').
Proof.
  intro H. induction H as [|x y l l' Hxy H IH]; [now intros []|]. intros _.
  destruct H as [|x' y' l l' Hxy' H]; [exact Hxy|].
  change (R (last (x' :: l) d) (last (y' :: l') d')).
  apply IH. discriminate.
Qed.

Lemma Forall_last (P : jsstring -> Prop) l d :
  Forall P l -> l <> [] -> P (last l d).
Proof.
  intro H. induction H as [|x l Hx H IH]; [now intros []|]. intros _.
  destruct H as [|x' l Hx' H]; [exact Hx|].
  change (P (last (x' :: l) d)). apply IH. discriminate.
Qed.

(** The values read along the trace of a stream: the two appends at the
    start, the updates of the loop, and the last call, which reads the last
    value of [aiResponse]. *)
Lemma stream_values sched a p body u :
  growing [] body ->
  exists ra rb rs,
    reads sched [] 0 (Called a :: Called p :: body ++ [Called u]) =
      ra :: rb :: rs ++ [finalValue [] body]
    /\ Forall2 prefixOf (callValues [] body) rs
    /\ Forall (fun r => prefixOf r (finalValue [] body)) rs
    /\ chain prefixOf (rs ++ [finalValue [] body]).
Proof.
  intro G.
  destruct (reads_bounds (Called a :: Called p :: body ++ [Called u])
              sched [] [] (Forall_nil _)) as (A1 & A2 & A3).
  { cbn [growing]. apply growing_app. split; [exact G | exact I]. }
  cbn [List.length app callValues finalValue] in A1, A2, A3.
  rewrite callValues_app, finalValue_app in *.
  cbn [callValues finalValue] in *.
  set (F := finalValue [] body) in *.
  destruct (reads sched [] 0 (Called a :: Called p :: body ++ [Called u]))
    as [|ra [|rb R]]; [inversion A1 | inversion A1 as [|? ? ? ? ? A]; inversion A|].
  inversion A1 as [|? ? ? ? _ A1' E1 E2]. subst.
  inversion A1' as [|? ? ? ? _ A1'' E1 E2]. subst. clear A1 A1'.
  apply Forall2_app_inv_l in A1'' as (rs & rl & B1 & B2 & ->).
  inversion B2 as [|? rf ? ? Hf B3 E1 E2]. subst. inversion B3. subst.
  inversion A2 as [|? ? _ A2' E1]. subst.
  inversion A2' as [|? ? _ A2'' E1]. subst. clear A2 A2'.
  apply Forall_app in A2'' as [C1 C2].
  inversion C2 as [|? ? [_ Hf'] _ E1]. subst.
  assert (rf = F) by (symmetry; now apply prefixOf_antisym). subst rf.
  exists ra, rb, rs. split; [reflexivity|]. split; [exact B1|]. split.
  - eapply Forall_impl; [|exact C1]. now intros r [_ H].
  - now apply chain_tail, chain_tail in A3.
Qed.

(** What React shows for a stream followed by one more call, under any
    schedule. *)
Lemma stream_run st body u sched prev userMsg :
  streamed st body ->
  exists rs,
    Forall2 prefixOf (callValues [] body) rs
    /\ Forall (fun r => prefixOf r (aiResponse st)) rs
    /\ chain prefixOf (rs ++ [aiResponse st])
    /\ react sched [] [] prev
         (Called (Append userMsg) :: chatUpdates st ++ [Called u]) =
       (prev ++ [userMsg])
       :: ((prev ++ [userMsg]) ++ [inProgress []])
       :: map (fun r => (prev ++ [userMsg]) ++ [inProgress r]) rs
       ++ [runUpdater (aiResponse st)
             ((prev ++ [userMsg]) ++ [inProgress (last rs [])]) u].
Proof.
  intros (Hq & Hc & Hg & Hf). rewrite Hq.
  destruct (stream_values sched (Append userMsg) (Append (inProgress []))
              body u Hg) as (ra & rb & rs & E & B1 & B2 & B3).
  rewrite Hf in *. exists rs. repeat split; trivial.
  rewrite react_resolve.
  change (Called (Append userMsg)
          :: (Called (Append (inProgress [])) :: body) ++ [Called u])
    with (Called (Append userMsg)
          :: Called (Append (inProgress [])) :: body ++ [Called u]).
  cbn [List.length]. rewrite E. cbn [app callsOf resolve runUpdater]. rewrite callsOf_app, Hc.
  cbn [callsOf]. rewrite (Forall2_length B1).
  rewrite resolve_app by now rewrite repeat_length.
  rewrite resolve_shows, resolved_shows. reflexivity.
Qed.

Lemma last_two_more (a b : list message) l z d :
  last (a :: b :: l ++ [z]) d = z.
Proof. now rewrite !app_comm_cons, last_last. Qed.

Lemma prefixOf_resolvedText st : prefixOf (aiResponse st) (resolvedText st).
Proof.
  unfold resolvedText, or_else. destruct (truthy (aiResponse st)) eqn:E.
  - apply prefixOf_refl.
  - apply truthy_false in E. rewrite E. apply prefixOf_nil.
Qed.

Lemma resolvedText_truthy st : resolvedText st <> [].
Proof.
  unfold resolvedText, or_else. destruct (truthy (aiResponse st)) eqn:E.
  - intro H. now rewrite H in E.
  - discriminate.
Qed.

(** The history once a stream has ended without error: it does not depend
    on when React ran the updaters. *)
Lemma runUpdaters_complete st sched prev userMsg :
  finishing st ->
  runUpdaters sched prev
    (Called (Append userMsg) :: chatUpdates (complete st)) =
  prev ++ [userMsg; Message ai (resolvedText st) false].
Proof.
  intros (body & H). unfold runUpdaters.
  cbn [complete chatUpdates setChatHistory].
  destruct (stream_run st body
              (ReplaceLastAi
                 (fun aiResponseNow =>
                    Message ai (or_else aiResponseNow NO_RESPONSE_GENERATED)
                      false))
              sched prev userMsg H) as (rs & _ & _ & _ & ->).
  rewrite last_two_more. cbn [runUpdater]. rewrite replaceLastAi_snoc.
  change (isAi (inProgress (last rs []))) with true. cbv iota.
  now rewrite <- app_assoc.
Qed.

(** What the bubble showed, from the placeholder to the end, under any
    schedule. *)
Lemma publishedTexts_complete st sched prev userMsg :
  finishing st ->
  exists rs,
    publishedTexts sched prev
      (Called (Append userMsg) :: chatUpdates (complete st)) =
    content userMsg :: [] :: rs ++ [resolvedText st]
    /\ chain prefixOf ([] :: rs ++ [resolvedText st]).
Proof.
  intros (body & H). unfold publishedTexts.
  cbn [complete chatUpdates setChatHistory].
  destruct (stream_run st body
              (ReplaceLastAi
                 (fun aiResponseNow =>
                    Message ai (or_else aiResponseNow NO_RESPONSE_GENERATED)
                      false))
              sched prev userMsg H) as (rs & _ & _ & C & ->).
  exists rs. split.
  - cbn [map]. rewrite map_app, map_map. cbn [map runUpdater].
    rewrite replaceLastAi_snoc.
    change (isAi (inProgress (last rs []))) with true. cbv iota.
    rewrite !lastContent_snoc. cbn [content inProgress]. do 2 f_equal.
    f_equal. rewrite <- (map_id rs) at 2. apply map_ext. intro r.
    apply lastContent_snoc.
  - apply (chain_cons_bound prefixOf).
    + apply Forall_forall. intros r _. apply prefixOf_nil.
    + exact (chain_move_last prefixOf prefixOf_trans rs _ _ C
               (prefixOf_resolvedText st)).
Qed.

(** The history when the reader fails: the bubble left behind does not
    depend on when React ran the updaters. *)
Lemma runUpdaters_failed st sched prev userMsg m :
  streaming st ->
  runUpdaters sched prev
    (Called (Append userMsg) :: chatUpdates st ++ [Called (Append m)])
  = prev ++ [userMsg; inProgress (shownText st); m].
Proof.
  intros (body & H & S). unfold runUpdaters.
  destruct (stream_run st body (Append m) sched prev userMsg H)
    as (rs & B1 & B2 & _ & ->).
  rewrite last_two_more. cbn [runUpdater]. rewrite <- !app_assoc.
  cbn [app]. do 3 f_equal. f_equal. unfold shownText.
  destruct H as (-> & _). cbn [callValues].
  destruct S as [S | [S1 S2]].
  - rewrite S in *. inversion B1. reflexivity.
  - destruct (callValues [] body) as [|c cs] eqn:E;
      [exfalso; apply S2; now rewrite <- S1|].
    assert (rs <> []) by (inversion B1; discriminate).
    apply prefixOf_antisym.
    + now apply Forall_last.
    + rewrite <- S1. apply Forall2_last; [exact B1 | discriminate].
Qed.

Lemma shownText_prefix st : prefixOf (shownText st) (aiResponse st).
Proof.
  unfold shownText. destruct (callValues [] (chatUpdates st)) as [|? [|? ?]];
    apply prefixOf_nil || apply prefixOf_refl.
Qed.

(** ** The session keeps its shape while the stream is read *)

Lemma streaming_finishing st : streaming st -> finishing st.
Proof. intros (body & H & _). now exists body. Qed.

Lemma streaming_open : streaming openStream.
Proof.
  exists []. unfold streamed, settled. split; [repeat split | now left].
Qed.

Lemma streaming_same st st' :
  aiResponse st' = aiResponse st -> chatUpdates st' = chatUpdates st ->
  streaming st -> streaming st'.
Proof.
  intros Ha Hq (body & (H1 & H2 & H3 & H4) & S). exists body.
  unfold streamed, settled. now rewrite Ha, Hq.
Qed.

Lemma finishing_assign st v :
  prefixOf (aiResponse st) v -> finishing st -> finishing (setAiResponse st v).
Proof.
  intros P (body & H1 & H2 & H3 & H4). exists (body ++ [Assigned v]).
  unfold streamed. cbn [chatUpdates aiResponse setAiResponse].
  rewrite H1, callsOf_app, callValues_app, finalValue_app, growing_app, H4.
  cbn [callsOf callValues finalValue growing]. rewrite !app_nil_r.
  repeat split; trivial.
Qed.

(** A Final record is stored only while [aiResponse] is empty, that is
    before the update of the loop was ever called. *)
Lemma streaming_final st v :
  aiResponse st = [] -> streaming st -> streaming (setAiResponse st v).
Proof.
  intros E (body & (H1 & H2 & H3 & H4) & S).
  exists (body ++ [Assigned v]). unfold streamed, settled.
  cbn [chatUpdates aiResponse setAiResponse].
  rewrite H1, callsOf_app, callValues_app, finalValue_app, growing_app, H4.
  cbn [callsOf callValues finalValue growing]. rewrite !app_nil_r.
  split; [repeat split; trivial; rewrite E; apply prefixOf_nil|].
  left. destruct S as [S | [_ S]]; [exact S | contradiction].
Qed.

(** A Content record: the new value is assigned and the update of the loop
    is called. *)
Lemma streaming_data st text :
  text <> [] -> finishing st ->
  streaming
    (setChatHistory (setAiResponse st (aiResponse st ++ text)) showAiResponse).
Proof.
  intros T (body & H1 & H2 & H3 & H4).
  exists (body ++ [Assigned (aiResponse st ++ text); Called showAiResponse]).
  unfold streamed, settled.
  cbn [chatUpdates aiResponse setAiResponse setChatHistory].
  rewrite H1, callsOf_app, callValues_app, finalValue_app, growing_app, H4.
  cbn [callsOf callValues finalValue growing].
  rewrite length_app, H2. cbn [List.length].
  split; [repeat split|].
  - now rewrite <- app_assoc.
  - rewrite Nat.add_comm. cbn [repeat Nat.add]. symmetry. apply repeat_cons.
  - exact H3.
  - apply prefixOf_app.
  - right. rewrite last_last. split; [reflexivity|].
    destruct (aiResponse st); [exact T | discriminate].
Qed.

Lemma unescape_not_nil payload : payload <> [] -> unescape payload <> [].
Proof.
  destruct payload as [|c [|c2 rest]]; [now intros [] | discriminate|].
  intros _. unfold unescape. rewrite replace2_two.
  destruct (_ && _)%N; discriminate.
Qed.

Lemma streaming_processPart st part :
  streaming st -> streaming (processPart st part).
Proof.
  intro H. unfold processPart.
  destruct (negb (truthy (trim part))); [exact H|].
  destruct (startsWith (trim part) (lit "data: ")) eqn:D.
  { apply streaming_data; [|now apply streaming_finishing].
    apply unescape_not_nil.
    now apply data_payload_clean; [apply trimEnd_trim|]. }
  destruct (startsWith (trim part) (lit "status: ")).
  { now apply (streaming_same st). }
  destruct (startsWith (trim part) (lit "final: ")); [|exact H].
  destruct (truthy (trim (substring (trim part) 7))
            && negb (eqb (trim (substring (trim part) 7)) (lit "No response"))
            && negb (truthy (aiResponse st))) eqn:E; [|exact H].
  apply streaming_final; [|exact H].
  apply andb_prop in E as [_ E]. now apply negb_true_iff, truthy_false in E.
Qed.

Lemma streaming_processParts parts st :
  streaming st -> streaming (fold_left processPart parts st).
Proof.
  revert st. induction parts as [|p parts IH]; intros st H; [exact H|].
  cbn [fold_left]. now apply IH, streaming_processPart.
Qed.

Lemma streaming_processChunk st chunk :
  streaming st -> streaming (processChunk st chunk).
Proof.
  intro H. unfold processChunk. apply streaming_processParts.
  now apply (streaming_same st).
Qed.

Lemma streaming_streamLoop chunks : streaming (streamLoop chunks).
Proof.
  unfold streamLoop. generalize streaming_open. generalize openStream.
  induction chunks as [|c chunks IH]; intros st H; [exact H|].
  cbn [fold_left]. now apply IH, streaming_processChunk.
Qed.

Lemma finishing_flushBuffer st : streaming st -> finishing (flushBuffer st).
Proof.
  intro H. pose proof (streaming_finishing st H) as F. unfold flushBuffer.
  destruct (truthy (trim (buffer st))); [|exact F].
  destruct (startsWith (trim (buffer st)) (lit "data: ")).
  { apply finishing_assign; [apply prefixOf_app | exact F]. }
  destruct (startsWith (trim (buffer st)) (lit "final: ")); [|exact F].
  destruct (truthy (trim (substring (trim (buffer st)) 7))
            && negb (truthy (aiResponse st))) eqn:E; [|exact F].
  apply finishing_assign; [|exact F].
  apply andb_prop in E as [_ E]. apply negb_true_iff, truthy_false in E.
  rewrite E. apply prefixOf_nil.
Qed.

(** ** The handler *)

Lemma handleChatSubmit_sent url query resp :
  truthy (trim query) = true ->
  handleChatSubmit url query true resp =
  Called (Append (Message user query false)) ::
  match resp with
  | FetchRejected => [Called (Append (connectionError url))]
  | NotOk detail => [Called (Append (requestError detail))]
  | NotOkNoJson => [Called (Append (connectionError url))]
  | Ok chunks EndOfStream =>
      chatUpdates (complete (flushBuffer (streamLoop chunks)))
  | Ok chunks ReadError =>
      chatUpdates (streamLoop chunks) ++ [Called (Append (connectionError url))]
  end.
Proof. intro H. unfold handleChatSubmit. now rewrite H. Qed.

Lemma streaming_finished chunks : finishing (flushBuffer (streamLoop chunks)).
Proof. apply finishing_flushBuffer, streaming_streamLoop. Qed.


(** Counterexample to C4: the reader fails after one Content record.
    Whenever React runs the updaters, the bubble with the text streamed so
    far is still in the history, marked as streaming, and the error message
    comes after it. *)
Lemma read_error_keeps_partial_bubble :
  (forall sched,
     runUpdaters sched []
       (handleChatSubmit localhost (lit "hi") true
          (Ok [lit "data: Hi" ++ [LF; LF]] ReadError)) =
     [Message user (lit "hi") false; Message ai (lit "Hi") true;
      connectionError localhost])
  /\ (forall sched,
        In (Message ai (lit "Hi") true)
          (runUpdaters sched []
             (handleChatSubmit localhost (lit "hi") true
                (Ok [lit "data: Hi" ++ [LF; LF]] ReadError))))
  /\ (forall sched,
        runUpdaters sched []
          (handleChatSubmit localhost (lit "hi") true
             (Ok [lit "data: Hi" ++ [LF; LF]] ReadError)) <>
        [Message user (lit "hi") false; connectionError localhost]).
Proof.
  assert (E : forall sched,
             runUpdaters sched []
               (handleChatSubmit localhost (lit "hi") true
                  (Ok [lit "data: Hi" ++ [LF; LF]] ReadError)) =
             [Message user (lit "hi") false; Message ai (lit "Hi") true;
              connectionError localhost]).
  { intro sched.
    rewrite (handleChatSubmit_sent localhost (lit "hi") _ eq_refl).
    rewrite runUpdaters_failed by apply streaming_streamLoop.
    reflexivity. }
  split; [exact E|]. split; intro sched; rewrite E.
  - right. left. reflexivity.
  - discriminate.
Qed.

(** C4, amended.  When reading the stream fails, one error message is
    queued and it is appended to the history: the entries before the
    request, the user's message, the assistant bubble as it was last shown
    (still marked as streaming, its text a prefix of the text gathered so
    far) and then the error message.  This is the history whenever React
    runs the updaters. *)
Theorem read_error_appends_message
    (url : jsstring) (prev : list message) (query : jsstring)
    (chunks : list jsstring) :
  truthy (trim query) = true ->
  exists partial,
    (forall sched,
       runUpdaters sched prev
         (handleChatSubmit url query true (Ok chunks ReadError)) =
       prev ++ [Message user query false; Message ai partial true;
                connectionError url])
    /\ prefixOf partial (aiResponse (streamLoop chunks))
    /\ handleChatSubmit url query true (Ok chunks ReadError) =
       Called (Append (Message user query false)) ::
       chatUpdates (streamLoop chunks) ++
       [Called (Append (connectionError url))].
Proof.
  intro H. rewrite (handleChatSubmit_sent url query _ H).
  exists (shownText (streamLoop chunks)).
  split; [|split; [apply shownText_prefix | reflexivity]].
  intro sched. now rewrite runUpdaters_failed by apply streaming_streamLoop.
Qed.

Lemma read_error_appends_message_witness :
  truthy (trim (lit "hi")) = true
  /\ exists partial,
       (forall sched,
          runUpdaters sched []
            (handleChatSubmit localhost (lit "hi") true
               (Ok [lit "data: Hi" ++ [LF; LF]] ReadError)) =
          [] ++ [Message user (lit "hi") false; Message ai partial true;
                 connectionError localhost])
       /\ prefixOf partial
            (aiResponse (streamLoop [lit "data: Hi" ++ [LF; LF]]))
       /\ handleChatSubmit localhost (lit "hi") true
            (Ok [lit "data: Hi" ++ [LF; LF]] ReadError) =
          Called (Append (Message user (lit "hi") false)) ::
          chatUpdates (streamLoop [lit "data: Hi" ++ [LF; LF]]) ++
          [Called (Append (connectionError localhost))].
Proof.
  split; [reflexivity|].
  exact (read_error_appends_message localhost [] (lit "hi")
           [lit "data: Hi" ++ [LF; LF]] eq_refl).
Defined.

(** C5.  Monotone publication.  The function handed to [setChatHistory]
    reads [aiResponse] when React runs it, so what the bubble shows depends
    on the schedule; under every schedule, from the placeholder to the
    message published when the stream has ended, each text the assistant
    bubble shows begins with the text it showed before, so the length of
    the shown text never goes down.  The first of these texts is empty and
    the last one is the resolved text. *)
Theorem published_text_monotone
    (url : jsstring) (prev : list message) (query : jsstring)
    (chunks : list jsstring) (sched : list nat) :
  truthy (trim query) = true ->
  let texts :=
    tl (publishedTexts sched prev
          (handleChatSubmit url query true (Ok chunks EndOfStream))) in
  chain prefixOf texts
  /\ chain (fun x y => List.length x <= List.length y) texts
  /\ hd [] texts = []
  /\ last texts [] = resolvedText (flushBuffer (streamLoop chunks)).
Proof.
  intros H texts. subst texts. rewrite (handleChatSubmit_sent url query _ H).
  destruct (publishedTexts_complete (flushBuffer (streamLoop chunks))
              sched prev (Message user query false)
              (streaming_finished chunks)) as (texts & -> & C).
  cbn [tl hd]. split; [exact C|]. split; [|split].
  - exact (chain_impl prefixOf _ _ prefixOf_length C).
  - reflexivity.
  - rewrite app_comm_cons. apply last_last.
Qed.

Lemma published_text_monotone_witness :
  truthy (trim (lit "hi")) = true
  /\ forall sched,
       chain prefixOf
         (tl (publishedTexts sched []
                (handleChatSubmit localhost (lit "hi") true
                   (Ok [lit "data: The answer is 4";
                        lit "2." ++ [LF; LF] ++ lit "status: done"
                        ++ [LF; LF]]
                      EndOfStream)))).
Proof.
  split; [reflexivity|]. intro sched.
  exact (proj1 (published_text_monotone localhost [] (lit "hi")
                  [lit "data: The answer is 4";
                   lit "2." ++ [LF; LF] ++ lit "status: done" ++ [LF; LF]]
                  sched eq_refl)).
Defined.

(** The two ways React can go for three Content records read in one
    chunk: each updater run at its call, and all of them run when the
    handler is done. *)
Example published_texts_eager_and_late :
  publishedTexts [1; 1; 1; 1; 1; 1; 1; 1; 1] []
    (handleChatSubmit localhost (lit "hi") true
       (Ok [lit "data: a" ++ [LF; LF] ++ lit "data: b" ++ [LF; LF]
            ++ lit "data: c" ++ [LF; LF]] EndOfStream)) =
    [lit "hi"; []; lit "a"; lit "ab"; lit "abc"; lit "abc"]
  /\ publishedTexts [] []
       (handleChatSubmit localhost (lit "hi") true
          (Ok [lit "data: a" ++ [LF; LF] ++ lit "data: b" ++ [LF; LF]
               ++ lit "data: c" ++ [LF; LF]] EndOfStream)) =
     [lit "hi"; []; lit "abc"; lit "abc"; lit "abc"; lit "abc"].
Proof. split; reflexivity. Qed.

(** C6.  The message published when the stream has ended is never empty,
    under any schedule.  It is not always the fallback sentence when no
    text came from Content records or from a usable Final payload: for the
    stream made of [final: No response] without the blank line after it,
    there is no Content record and the Final payload is the sentinel, yet
    the bubble shows [No response].  The code that runs when the reader is
    done does not compare the payload with the sentinel, as the loop
    does. *)
Theorem sentinel_shown_instead_of_fallback :
  (forall url prev query chunks sched,
     truthy (trim query) = true ->
     exists text,
       runUpdaters sched prev
         (handleChatSubmit url query true (Ok chunks EndOfStream)) =
       prev ++ [Message user query false; Message ai text false]
       /\ text <> [])
  /\ contentText (fst (feed [] [lit "final: No response"])
                  ++ [snd (feed [] [lit "final: No response"])]) = []
  /\ textOf (lit "final: No response") = []
  /\ (forall sched,
        runUpdaters sched []
          (handleChatSubmit localhost (lit "hi") true
             (Ok [lit "final: No response"] EndOfStream)) =
        [Message user (lit "hi") false; Message ai (lit "No response") false])
  /\ lit "No response" <> lit "No response generated.".
Proof.
  split; [|split; [reflexivity | split; [reflexivity | split]]].
  - intros url prev query chunks sched H.
    exists (resolvedText (flushBuffer (streamLoop chunks))).
    rewrite (handleChatSubmit_sent url query _ H).
    rewrite runUpdaters_complete by apply streaming_finished.
    split; [reflexivity | apply resolvedText_truthy].
  - intro sched.
    rewrite (handleChatSubmit_sent localhost (lit "hi") _ eq_refl).
    now rewrite runUpdaters_complete by apply streaming_finished.
  - discriminate.
Qed.

(** ** Final records *)

(** In the loop the sentinel is refused whatever the state is. *)
Lemma sentinel_refused_in_loop st part :
  startsWith (trim part) (lit "final: ") = true ->
  trim (substring (trim part) 7) = lit "No response" ->
  startsWith (trim part) (lit "data: ") = false ->
  startsWith (trim part) (lit "status: ") = false ->
  processPart st part = st.
Proof.
  intros H E H1 H2. unfold processPart. rewrite H, E, H1, H2.
  now destruct (negb (truthy (trim part))).
Qed.

(** At the end of the stream it is not: with no text gathered, the
    sentinel left in the buffer becomes the message text. *)
Lemma sentinel_taken_from_buffer st :
  startsWith (trim (buffer st)) (lit "final: ") = true ->
  trim (substring (trim (buffer st)) 7) = lit "No response" ->
  startsWith (trim (buffer st)) (lit "data: ") = false ->
  aiResponse st = [] ->
  resolvedText (flushBuffer st) = lit "No response".
Proof.
  intros H E H1 Ha. unfold flushBuffer.
  rewrite (startsWith_truthy _ (lit "final: ")) by (discriminate || exact H).
  rewrite H, E, H1, Ha. reflexivity.
Qed.

(** Once some text has been gathered, the records of the loop only add
    their Content payloads: a later Final record changes nothing. *)
Lemma content_wins_after_first_text parts st :
  truthy (aiResponse st) = true ->
  aiResponse (fold_left processPart parts st) =
  aiResponse st ++ contentText parts.
Proof.
  revert st. induction parts as [|p parts IH]; intros st H.
  - cbn. now rewrite app_nil_r.
  - cbn [fold_left]. unfold contentText. cbn [map List.concat].
    fold (contentText parts). rewrite app_assoc.
    assert (E : aiResponse (processPart st p) = aiResponse st ++ contentOf p).
    { unfold processPart, contentOf.
      destruct (startsWith (trim p) (lit "data: ")) eqn:D.
      - rewrite (startsWith_truthy _ (lit "data: "))
          by (discriminate || exact D).
        reflexivity.
      - rewrite H, andb_false_r, app_nil_r.
        destruct (negb (truthy (trim p))); [reflexivity|].
        destruct (startsWith (trim p) (lit "status: ")); [reflexivity|].
        now destruct (startsWith (trim p) (lit "final: ")). }
    rewrite <- E. apply IH. rewrite E.
    destruct (aiResponse st); [discriminate | reflexivity].
Qed.

(** C1.  The sentinel of a Final record.  Sent with the blank line after
    it, the record [final: No response] is refused in the loop and the
    message is the fallback sentence.  Sent as the last bytes of the stream,
    without the blank line, it is taken from the buffer by the code that
    runs when the reader is done, which does not compare the payload with
    the sentinel: the message is [No response].  Both hold whenever React
    runs the updaters. *)
Theorem sentinel_in_trailing_buffer_is_shown :
  (forall sched,
     runUpdaters sched []
       (handleChatSubmit localhost (lit "hi") true
          (Ok [lit "final: No response" ++ [LF; LF]] EndOfStream)) =
     [Message user (lit "hi") false;
      Message ai (lit "No response generated.") false])
  /\ (forall sched,
        runUpdaters sched []
          (handleChatSubmit localhost (lit "hi") true
             (Ok [lit "final: No response"] EndOfStream)) =
        [Message user (lit "hi") false; Message ai (lit "No response") false]).
Proof.
  split; intro sched;
    rewrite (handleChatSubmit_sent localhost (lit "hi") _ eq_refl);
    now rewrite runUpdaters_complete by apply streaming_finished.
Qed.

(** C2.  Content and Final.  A Final record that comes after a Content
    record is not used: the message is the Content text.  A Final record
    that comes before the first Content record is stored in [aiResponse],
    and the Content payload is then appended to it: the message is the
    Final payload followed by the Content text.  Both hold whenever React
    runs the updaters. *)
Theorem final_before_content_is_kept :
  (forall sched,
     runUpdaters sched []
       (handleChatSubmit localhost (lit "hi") true
          (Ok [lit "data: Y" ++ [LF; LF] ++ lit "final: X" ++ [LF; LF]]
             EndOfStream)) =
     [Message user (lit "hi") false; Message ai (lit "Y") false])
  /\ (forall sched,
        runUpdaters sched []
          (handleChatSubmit localhost (lit "hi") true
             (Ok [lit "final: X" ++ [LF; LF] ++ lit "data: Y" ++ [LF; LF]]
                EndOfStream)) =
        [Message user (lit "hi") false; Message ai (lit "XY") false])
  /\ contentText (partsOf [lit "final: X" ++ [LF; LF] ++ lit "data: Y"
                           ++ [LF; LF]]) = lit "Y".
Proof.
  split; [|split; [|reflexivity]]; intro sched;
    rewrite (handleChatSubmit_sent localhost (lit "hi") _ eq_refl);
    now rewrite runUpdaters_complete by apply streaming_finished.
Qed.

(** * Further properties of the decoder *)

(** ** Fragmentation *)

Lemma streamLoop_concat chunks chunks' :
  List.concat chunks = List.concat chunks' ->
  streamLoop chunks = streamLoop chunks'.
Proof.
  intro H. rewrite !streamLoop_parts. unfold partsOf, remainderOf.
  now rewrite H.
Qed.

Lemma reads_length trace sched current waiting :
  List.length (reads sched current waiting trace) =
  waiting + List.length (callsOf trace).
Proof.
  revert sched current waiting.
  induction trace as [|[v|u] trace IH]; intros sched current waiting;
    cbn [reads callsOf List.length]; rewrite ?length_app, ?repeat_length, ?IH;
    lia.
Qed.

(** The history after calls that only append. *)
Lemma runUpdaters_appends sched prev a b :
  runUpdaters sched prev [Called (Append a); Called (Append b)] =
  prev ++ [a; b].
Proof.
  rewrite runUpdaters_resolved.
  pose proof (reads_length [Called (Append a); Called (Append b)] sched [] 0)
    as L.
  destruct (reads sched [] 0 [Called (Append a); Called (Append b)])
    as [|r1 [|r2 [|r3 rs]]]; try discriminate L.
  cbn [callsOf resolved runUpdater]. now rewrite <- app_assoc.
Qed.

(** X1.  The history depends on the text, not on the chunks and not on
    React: two readers that deliver the same text in different pieces make
    the handler assign [aiResponse] and call [setChatHistory] in the same
    way and in the same order, and lead to the same chat history once every
    updater has run, whenever React runs them, and whether the reader ends
    or fails after the last piece. *)
Theorem chunking_does_not_matter
    (url query : jsstring) (valid : bool) (e : ending)
    (chunks chunks' : list jsstring) (sched sched' : list nat)
    (prev : list message) :
  List.concat chunks = List.concat chunks' ->
  handleChatSubmit url query valid (Ok chunks e) =
  handleChatSubmit url query valid (Ok chunks' e)
  /\ runUpdaters sched prev (handleChatSubmit url query valid (Ok chunks e)) =
     runUpdaters sched' prev (handleChatSubmit url query valid (Ok chunks' e)).
Proof.
  intro H. unfold handleChatSubmit.
  destruct (negb (truthy (trim query))); [now split|].
  destruct (negb valid); [now split|].
  rewrite (streamLoop_concat chunks chunks' H).
  split; [reflexivity|]. destruct e.
  - now rewrite !runUpdaters_complete by apply streaming_finished.
  - now rewrite !runUpdaters_failed by apply streaming_streamLoop.
Qed.

Lemma chunking_does_not_matter_witness :
  List.concat [lit "data: He"; lit "llo" ++ [LF; LF]] =
  List.concat [lit "data: Hello" ++ [LF]; [LF]]
  /\ forall sched sched',
       runUpdaters sched []
         (handleChatSubmit localhost (lit "hi") true
            (Ok [lit "data: He"; lit "llo" ++ [LF; LF]] EndOfStream)) =
       runUpdaters sched' []
         (handleChatSubmit localhost (lit "hi") true
            (Ok [lit "data: Hello" ++ [LF]; [LF]] EndOfStream)).
Proof.
  split; [reflexivity|]. intros sched sched'.
  exact (proj2 (chunking_does_not_matter localhost (lit "hi") true EndOfStream
                  [lit "data: He"; lit "llo" ++ [LF; LF]]
                  [lit "data: Hello" ++ [LF]; [LF]] sched sched' [] eq_refl)).
Defined.

(** ** Nothing is lost by the splitter *)

Section SplitMore.

Variables a b : N.

Lemma replace2_same s : replace2 a b [a; b] s = s.
Proof.
  induction s as [| c | c1 c2 rest IH1 IH2] using list_ind_two;
    try reflexivity.
  rewrite replace2_two. destruct ((c1 =? a) && (c2 =? b))%N eqn:E.
  - apply andb_prop in E as [E1 E2]. apply N.eqb_eq in E1, E2. subst.
    now rewrite IH1.
  - now rewrite IH2.
Qed.

(** The parts glued with the separator are the text that was split. *)
Lemma join_split2 s : join [a; b] (split2 a b s) = s.
Proof. rewrite <- replace2_join_split. apply replace2_same. Qed.

Lemma split2_first c rest :
  exists ps, split2 a b (c :: rest) = [] :: ps
             \/ exists p, split2 a b (c :: rest) = (c :: p) :: ps.
Proof.
  destruct rest as [|c2 rest].
  - exists []. right. now exists [].
  - rewrite split2_two. destruct ((c =? a) && (c2 =? b))%N.
    + exists (split2 a b rest). now left.
    + destruct (split2 a b (c2 :: rest)) as [|p ps] eqn:E.
      * now destruct (split2_not_nil _ _ _ E).
      * exists ps. right. now exists p.
Qed.

(** No part holds the separator. *)
Lemma split2_parts_clean s :
  Forall (fun p => occurs2 a b p = false) (split2 a b s).
Proof.
  induction s as [| c | c1 c2 rest IH1 IH2] using list_ind_two.
  - repeat constructor.
  - repeat constructor.
  - rewrite split2_two. destruct ((c1 =? a) && (c2 =? b))%N eqn:E.
    + constructor; [reflexivity | exact IH1].
    + destruct (split2_first c2 rest) as (ps & [H | (p & H)]);
        rewrite H in *; cbn [cons_first]; inversion IH2; subst;
        constructor; trivial.
      rewrite occurs2_two, E. assumption.
Qed.

(** A text without separator, followed by one: the split has two parts,
    the text (less its last unit when the separator starts there) and what
    is left of the separator. *)
Lemma split2_terminated r :
  occurs2 a b r = false ->
  split2 a b (r ++ [a; b]) = [r; []]
  \/ exists r', r = r' ++ [a] /\ split2 a b (r ++ [a; b]) = [r'; [b]].
Proof.
  induction r as [| c | c1 c2 rest IH1 IH2] using list_ind_two; intro H.
  - left. cbn [app]. now rewrite split2_hit.
  - cbn [app]. rewrite split2_two.
    destruct ((c =? a) && (a =? b))%N eqn:E.
    + right. exists []. apply andb_prop in E as [E1 _].
      apply N.eqb_eq in E1. subst c. split; reflexivity.
    + left. now rewrite split2_hit.
  - rewrite occurs2_two in H. apply orb_false_elim in H as [E H].
    change ((c1 :: c2 :: rest) ++ [a; b])
      with (c1 :: c2 :: (rest ++ [a; b])).
    rewrite (split2_miss _ _ _ _ _ E).
    change (c2 :: rest ++ [a; b]) with ((c2 :: rest) ++ [a; b]).
    destruct (IH2 H) as [-> | (r' & Hr & ->)].
    + now left.
    + right. exists (c1 :: r'). rewrite Hr. split; reflexivity.
Qed.

End SplitMore.

(** X2.  The records cut in the loop and the text left in the buffer, glued with
    blank lines, are the text that was read: the splitter drops nothing and
    adds nothing.  The buffer never holds a blank line, and neither does a
    record. *)
Theorem splitter_loses_nothing (chunks : list jsstring) :
  join [LF; LF] (fst (feed [] chunks) ++ [snd (feed [] chunks)]) =
    List.concat chunks
  /\ buffer (streamLoop chunks) = snd (feed [] chunks)
  /\ occurs2 LF LF (buffer (streamLoop chunks)) = false
  /\ Forall (fun p => occurs2 LF LF p = false) (fst (feed [] chunks)).
Proof.
  rewrite streamLoop_parts, feed_empty_buffer. cbn [fst snd buffer setBuffer].
  unfold partsOf, remainderOf.
  pose proof (split2_parts_clean LF LF (List.concat chunks)) as C.
  pose proof (split2_not_nil LF LF (List.concat chunks)) as NE.
  rewrite (app_removelast_last (@nil N) NE) in C at 1.
  apply Forall_app in C as [C1 C2].
  split; [|split; [reflexivity | split; [now inversion C2 | exact C1]]].
  etransitivity; [|apply (join_split2 LF LF)]. f_equal. symmetry.
  now apply app_removelast_last.
Qed.

(** ** The text the loop builds *)

Lemma processPart_from_empty st part :
  aiResponse st = [] -> aiResponse (processPart st part) = textOf part.
Proof.
  intro H. unfold processPart, textOf.
  destruct (trim part) as [|c line] eqn:T; [exact H|].
  cbn [truthy negb].
  destruct (startsWith (c :: line) (lit "data: ")).
  { cbn [aiResponse setChatHistory setAiResponse]. now rewrite H. }
  destruct (startsWith (c :: line) (lit "status: ")); [exact H|].
  destruct (startsWith (c :: line) (lit "final: ")); [|exact H].
  rewrite H. cbn [truthy negb]. rewrite andb_true_r.
  destruct (eqb (trim (substring (c :: line) 7)) (lit "No response")).
  { now rewrite andb_false_r. }
  rewrite andb_true_r.
  destruct (trim (substring (c :: line) 7)); [exact H | reflexivity].
Qed.

Lemma loopText_from_empty parts st :
  aiResponse st = [] ->
  aiResponse (fold_left processPart parts st) = loopText parts.
Proof.
  revert st. induction parts as [|p parts IH]; intros st H; [exact H|].
  cbn [fold_left loopText].
  pose proof (processPart_from_empty st p H) as E.
  destruct (textOf p) as [|c text].
  - now apply IH.
  - rewrite content_wins_after_first_text by now rewrite E.
    now rewrite E.
Qed.

(** X3.  The text gathered when the loop is over, in closed form: the records
    before the first one that gives some text count for nothing; that record
    gives its text (the unescaped payload of a Content record, or the
    trimmed payload of a Final record other than the sentinel); after it
    only the Content records add theirs. *)
Theorem loop_text_closed_form (chunks : list jsstring) :
  aiResponse (streamLoop chunks) = loopText (fst (feed [] chunks)).
Proof.
  rewrite streamLoop_parts, feed_empty_buffer. cbn [fst].
  change (aiResponse (setBuffer ?s ?v)) with (aiResponse s).
  now apply loopText_from_empty.
Qed.

Lemma textOf_not_final part :
  startsWith (trim part) (lit "final: ") = false ->
  textOf part = contentOf part.
Proof.
  intro H. unfold textOf, contentOf. rewrite H.
  destruct (startsWith (trim part) (lit "data: ")); [reflexivity|].
  now destruct (startsWith (trim part) (lit "status: ")).
Qed.

Lemma loopText_no_final parts :
  (forall p, In p parts -> startsWith (trim p) (lit "final: ") = false) ->
  loopText parts = contentText parts.
Proof.
  induction parts as [|p parts IH]; intro H; [reflexivity|].
  cbn [loopText]. unfold contentText. cbn [map List.concat].
  fold (contentText parts).
  rewrite <- (textOf_not_final p) by (apply H; now left).
  destruct (textOf p); [|reflexivity].
  apply IH. intros q Hq. apply H. now right.
Qed.

Lemma contentText_snoc parts part :
  contentText (parts ++ [part]) = contentText parts ++ contentOf part.
Proof.
  unfold contentText. rewrite map_app, concat_app. cbn [map List.concat].
  now rewrite app_nil_r.
Qed.

Lemma flushBuffer_not_final st :
  startsWith (trim (buffer st)) (lit "final: ") = false ->
  aiResponse (flushBuffer st) = aiResponse st ++ contentOf (buffer st).
Proof.
  intro H. unfold flushBuffer, contentOf. rewrite H.
  destruct (trim (buffer st)) as [|c line]; [cbn; now rewrite app_nil_r|].
  cbn [truthy].
  destruct (startsWith (c :: line) (lit "data: ")); [reflexivity|].
  now rewrite app_nil_r.
Qed.

(** X4.  A stream without Final record.  When neither a record cut in the loop
    nor what is left in the buffer is a Final record, the completed bubble
    shows the unescaped Content payloads of the stream, in order, one after
    the other, and the fallback sentence when there is none, whenever
    React runs the updaters. *)
Theorem content_only_stream
    (url : jsstring) (prev : list message) (query : jsstring)
    (chunks : list jsstring) (sched : list nat) :
  truthy (trim query) = true ->
  (forall p, In p (fst (feed [] chunks) ++ [snd (feed [] chunks)]) ->
             startsWith (trim p) (lit "final: ") = false) ->
  runUpdaters sched prev
    (handleChatSubmit url query true (Ok chunks EndOfStream)) =
  prev ++ [Message user query false;
           Message ai
             (or_else
                (contentText (fst (feed [] chunks) ++ [snd (feed [] chunks)]))
                (lit "No response generated."))
             false].
Proof.
  intros Hq H. rewrite (handleChatSubmit_sent url query _ Hq).
  rewrite runUpdaters_complete by apply streaming_finished.
  do 3 f_equal. unfold resolvedText.
  f_equal. rewrite feed_empty_buffer in *. cbn [fst snd] in *.
  rewrite flushBuffer_not_final.
  - rewrite streamLoop_parts at 1.
    change (aiResponse (setBuffer ?s ?v)) with (aiResponse s).
    rewrite loopText_from_empty by reflexivity.
    rewrite loopText_no_final
      by (intros p Hp; apply H, in_or_app; now left).
    rewrite contentText_snoc. f_equal. f_equal.
    now rewrite streamLoop_parts.
  - rewrite streamLoop_parts. cbn [buffer setBuffer].
    apply H, in_or_app. right. now left.
Qed.

Lemma content_only_stream_witness :
  truthy (trim (lit "hi")) = true
  /\ forall sched,
       runUpdaters sched []
         (handleChatSubmit localhost (lit "hi") true
            (Ok [lit "data: The answer is 4";
                 lit "2." ++ [LF; LF] ++ lit "status: done" ++ [LF; LF]
                 ++ lit "data:  Bye"]
               EndOfStream)) =
       [Message user (lit "hi") false;
        Message ai (lit "The answer is 42. Bye") false].
Proof.
  split; [reflexivity|]. intro sched.
  refine (content_only_stream localhost [] (lit "hi")
            [lit "data: The answer is 4";
             lit "2." ++ [LF; LF] ++ lit "status: done" ++ [LF; LF]
             ++ lit "data:  Bye"] sched eq_refl _).
  intros p Hp. cbn in Hp.
  destruct Hp as [<- | [<- | [<- | []]]]; reflexivity.
Defined.

(** ** The history after a request *)

Lemma lit_app_not_nil c s t : lit (String c s) ++ t <> [].
Proof. discriminate. Qed.

(** X5.  What a request leaves in the history, whatever came back and
    whenever React runs the updaters.  The entries that were there stay as
    they were; the user's message follows; the last entry is an assistant
    message that is not marked as streaming and whose text is not empty.
    Between the two there is nothing, except after a failed read, where the
    bubble of the interrupted reply is left. *)
Theorem history_after_submit
    (url : jsstring) (prev : list message) (query : jsstring)
    (resp : fetchResult) :
  truthy (trim query) = true ->
  exists shown answer,
    (forall sched,
       runUpdaters sched prev (handleChatSubmit url query true resp) =
       prev ++ Message user query false :: shown ++ [answer])
    /\ role answer = ai /\ isStreaming answer = false /\ content answer <> []
    /\ (shown = []
        \/ exists partial chunks,
             shown = [inProgress partial] /\ resp = Ok chunks ReadError).
Proof.
  intro H. rewrite (handleChatSubmit_sent url query _ H).
  destruct resp as [| detail | | chunks [|]].
  - exists [], (connectionError url).
    split; [intro sched; apply runUpdaters_appends|].
    repeat split; [apply lit_app_not_nil | now left].
  - exists [], (requestError detail).
    split; [intro sched; apply runUpdaters_appends|].
    repeat split; [apply lit_app_not_nil | now left].
  - exists [], (connectionError url).
    split; [intro sched; apply runUpdaters_appends|].
    repeat split; [apply lit_app_not_nil | now left].
  - exists [], (Message ai (resolvedText (flushBuffer (streamLoop chunks)))
                  false).
    split; [intro sched;
            now rewrite runUpdaters_complete by apply streaming_finished|].
    repeat split; [apply resolvedText_truthy | now left].
  - exists [inProgress (shownText (streamLoop chunks))], (connectionError url).
    split; [intro sched;
            now rewrite runUpdaters_failed by apply streaming_streamLoop|].
    repeat split; [apply lit_app_not_nil|].
    right. now exists (shownText (streamLoop chunks)), chunks.
Qed.

Lemma history_after_submit_witness :
  truthy (trim (lit "hi")) = true
  /\ exists shown answer,
       (forall sched,
          runUpdaters sched [Message ai (lit "Hi!") false]
            (handleChatSubmit localhost (lit "hi") true (NotOk None)) =
          [Message ai (lit "Hi!") false] ++
          Message user (lit "hi") false :: shown ++ [answer])
       /\ role answer = ai /\ isStreaming answer = false
       /\ content answer <> []
       /\ (shown = []
           \/ exists partial chunks,
                shown = [inProgress partial]
                /\ NotOk None = Ok chunks ReadError).
Proof.
  split; [reflexivity|].
  exact (history_after_submit localhost [Message ai (lit "Hi!") false]
           (lit "hi") (NotOk None) eq_refl).
Defined.

(** ** Status records *)

Lemma status_log_parts parts st :
  console (fold_left processPart parts st) =
    console st ++ map (fun p => [lit "Status:"; p]) (statusPayloads parts)
  /\ statusMsg (fold_left processPart parts st) =
     last (statusPayloads parts) (statusMsg st).
Proof.
  revert st. induction parts as [|p parts IH]; intro st.
  - cbn. now rewrite app_nil_r.
  - cbn [fold_left statusPayloads]. destruct (IH (processPart st p)) as [C S].
    rewrite C, S. clear IH C S. unfold processPart.
    destruct (trim p) as [|c line] eqn:T; [now split|].
    cbn [truthy negb].
    destruct (startsWith (c :: line) (lit "data: ")); [now split|].
    cbn [negb andb].
    destruct (startsWith (c :: line) (lit "status: ")).
    + cbn [console statusMsg consoleLog setStatusMsg map].
      rewrite <- app_assoc. split; [reflexivity|]. now rewrite last_cons.
    + destruct (startsWith (c :: line) (lit "final: ")); [|now split].
      now destruct (_ && _).
Qed.

Lemma flushBuffer_quiet st :
  console (flushBuffer st) = console st
  /\ statusMsg (flushBuffer st) = statusMsg st.
Proof.
  unfold flushBuffer.
  repeat match goal with |- context [if ?c then _ else _] => destruct c end;
    now split.
Qed.

(** X6.  Every Status record cut in the loop is written to the console once, in
    the order of the stream, and nothing else is written; [statusMsg] ends
    as the payload of the last of them.  A Status record left in the buffer
    at the end of the stream is neither written nor stored. *)
Theorem status_records_logged (chunks : list jsstring) :
  let st := complete (flushBuffer (streamLoop chunks)) in
  console st =
    map (fun p => [lit "Status:"; p]) (statusPayloads (fst (feed [] chunks)))
  /\ statusMsg st = last (statusPayloads (fst (feed [] chunks))) [].
Proof.
  cbv zeta. cbn [complete console statusMsg setChatHistory].
  destruct (flushBuffer_quiet (streamLoop chunks)) as [-> ->].
  rewrite streamLoop_parts, feed_empty_buffer. cbn [fst console statusMsg setBuffer].
  exact (status_log_parts (partsOf chunks) openStream).
Qed.

(** ** The last record and its blank line *)

Lemma buffer_clean chunks : occurs2 LF LF (buffer (streamLoop chunks)) = false.
Proof.
  rewrite streamLoop_parts. cbn [buffer setBuffer]. unfold remainderOf.
  pose proof (split2_parts_clean LF LF (List.concat chunks)) as C.
  pose proof (split2_not_nil LF LF (List.concat chunks)) as NE.
  rewrite (app_removelast_last (@nil N) NE) in C at 1.
  apply Forall_app in C as [_ C]. now inversion C.
Qed.

(** In the loop and at the end of the stream a record that is no Final
    record gives the same text. *)
Lemma processPart_as_flushBuffer st part :
  trim part = trim (buffer st) ->
  startsWith (trim (buffer st)) (lit "final: ") = false ->
  aiResponse (processPart st part) = aiResponse (flushBuffer st).
Proof.
  intros T H. unfold processPart, flushBuffer. rewrite T, H.
  destruct (trim (buffer st)) as [|c line]; [reflexivity|].
  cbn [truthy negb].
  destruct (startsWith (c :: line) (lit "data: ")); [reflexivity|].
  now destruct (startsWith (c :: line) (lit "status: ")).
Qed.

Lemma flushBuffer_blank st : trim (buffer st) = [] -> flushBuffer st = st.
Proof. intro H. unfold flushBuffer. now rewrite H. Qed.

Lemma closing_blank_line st :
  occurs2 LF LF (buffer st) = false ->
  startsWith (trim (buffer st)) (lit "final: ") = false ->
  aiResponse (flushBuffer (processChunk st [LF; LF])) =
  aiResponse (flushBuffer st).
Proof.
  intros C H. unfold processChunk.
  assert (E : exists p q,
             split2 LF LF (buffer st ++ [LF; LF]) = [p; q]
             /\ trim p = trim (buffer st) /\ trim q = []).
  { destruct (split2_terminated LF LF (buffer st) C)
      as [E | (r' & Hr & E)].
    - exists (buffer st), []. now rewrite E.
    - exists r', [LF]. rewrite E. repeat split.
      rewrite Hr. symmetry. now apply trim_white_end. }
  destruct E as (p & q & -> & Tp & Tq).
  cbn [removelast last fold_left].
  rewrite flushBuffer_blank
    by now rewrite processPart_buffer.
  rewrite processPart_setBuffer.
  change (aiResponse (setBuffer ?s ?v)) with (aiResponse s).
  now apply processPart_as_flushBuffer.
Qed.

(** X7.  The last record needs no blank line after it, unless it is a Final
    record: when what is left in the buffer at the end of the stream is no
    Final record, the history is the one the same stream gives with a blank
    line added at its end, whenever React runs the updaters. *)
Theorem last_record_needs_no_blank_line
    (url : jsstring) (prev : list message) (query : jsstring)
    (chunks : list jsstring) (sched sched' : list nat) :
  truthy (trim query) = true ->
  startsWith (trim (snd (feed [] chunks))) (lit "final: ") = false ->
  runUpdaters sched prev
    (handleChatSubmit url query true (Ok (chunks ++ [[LF; LF]]) EndOfStream)) =
  runUpdaters sched' prev
    (handleChatSubmit url query true (Ok chunks EndOfStream)).
Proof.
  intros Hq H. rewrite !(handleChatSubmit_sent url query _ Hq).
  rewrite !runUpdaters_complete by apply streaming_finished.
  assert (E : aiResponse (flushBuffer (streamLoop (chunks ++ [[LF; LF]]))) =
              aiResponse (flushBuffer (streamLoop chunks))).
  { unfold streamLoop at 1. rewrite fold_left_app. cbn [fold_left].
    fold (streamLoop chunks). apply closing_blank_line.
    - apply buffer_clean.
    - rewrite feed_empty_buffer in H. cbn [snd] in H.
      now rewrite streamLoop_parts. }
  unfold resolvedText. now rewrite E.
Qed.

Lemma last_record_needs_no_blank_line_witness :
  truthy (trim (lit "hi")) = true
  /\ forall sched sched',
       runUpdaters sched []
         (handleChatSubmit localhost (lit "hi") true
            (Ok ([lit "data: Hello" ++ [LF]] ++ [[LF; LF]]) EndOfStream)) =
       runUpdaters sched' []
         (handleChatSubmit localhost (lit "hi") true
            (Ok [lit "data: Hello" ++ [LF]] EndOfStream)).
Proof.
  split; [reflexivity|]. intros sched sched'.
  exact (last_record_needs_no_blank_line localhost [] (lit "hi")
           [lit "data: Hello" ++ [LF]] sched sched' eq_refl eq_refl).
Defined.

(** ** Unescaping once is enough *)

Lemma unescape_head c rest :
  exists out,
    unescape (c :: rest) = c :: out \/ unescape (c :: rest) = LF :: out.
Proof.
  unfold unescape. destruct rest as [|c2 rest].
  - exists []. now left.
  - rewrite replace2_two. destruct (_ && _)%N.
    + exists (replace2 BACKSLASH LOWER_N [LF] rest). now right.
    + exists (replace2 BACKSLASH LOWER_N [LF] (c2 :: rest)). now left.
Qed.

Lemma unescape_clean payload :
  occurs2 BACKSLASH LOWER_N (unescape payload) = false.
Proof.
  induction payload as [| c | c1 c2 rest IH1 IH2] using list_ind_two;
    try reflexivity.
  unfold unescape in *. rewrite replace2_two.
  destruct ((c1 =? BACKSLASH) && (c2 =? LOWER_N))%N eqn:E.
  - cbn [app].
    destruct (replace2 BACKSLASH LOWER_N [LF] rest) as [|d out];
      [reflexivity|].
    rewrite occurs2_two. now rewrite IH1.
  - destruct (unescape_head c2 rest) as (out & [H | H]);
      unfold unescape in H; rewrite H in *; rewrite occurs2_two, IH2.
    + now rewrite E.
    + now rewrite andb_false_r.
Qed.

(** X8.  The text added for a Content record holds no backslash followed by
    [n] any more, so unescaping it again would change nothing; and it is
    never longer than the payload. *)
Theorem unescape_once_is_enough (payload : jsstring) :
  occurs2 BACKSLASH LOWER_N (unescape payload) = false
  /\ unescape (unescape payload) = unescape payload
  /\ List.length (unescape payload) <= List.length payload.
Proof.
  split; [apply unescape_clean|]. split.
  - apply replace2_no_occurrence, unescape_clean.
  - unfold unescape.
    induction payload as [| c | c1 c2 rest IH1 IH2] using list_ind_two;
      try (cbn; lia).
    rewrite replace2_two. destruct (_ && _)%N; cbn [app List.length] in *; lia.
Qed.

(** * The workflow *)

(** ** Keys and properties *)

Lemma eqb_eq s t : eqb s t = true <-> s = t.
Proof.
  revert t. induction s as [|c s IH]; intros [|d t]; cbn [eqb];
    try (split; [discriminate | discriminate]); [now split|].
  rewrite andb_true_iff, N.eqb_eq, IH. split.
  - now intros [-> ->].
  - now intros [= -> ->].
Qed.

Lemma eqb_refl s : eqb s s = true.
Proof. now apply eqb_eq. Qed.

Lemma eqb_neq s t : eqb s t = false <-> s <> t.
Proof.
  rewrite <- eqb_eq. destruct (eqb s t); split; congruence || discriminate.
Qed.

Lemma eqb_sym s t : eqb s t = eqb t s.
Proof.
  destruct (eqb t s) eqn:E.
  - apply eqb_eq in E. subst. apply eqb_refl.
  - apply eqb_neq. apply eqb_neq in E. congruence.
Qed.

Lemma getProp_setProp_same o key value :
  getProp (setProp o key value) key = value.
Proof.
  induction o as [|[k v] o IH]; cbn [setProp getProp].
  - now rewrite eqb_refl.
  - destruct (eqb k key) eqn:E; cbn [getProp]; now rewrite E.
Qed.

Lemma getProp_setProp_other o key value k :
  k <> key -> getProp (setProp o key value) k = getProp o k.
Proof.
  intro H. induction o as [|[k' v] o IH]; cbn [setProp getProp].
  - replace (eqb key k) with false; [reflexivity|].
    symmetry. apply eqb_neq. congruence.
  - destruct (eqb k' key) eqn:E; cbn [getProp].
    + apply eqb_eq in E. subst k'.
      replace (eqb key k) with false; [reflexivity|].
      symmetry. apply eqb_neq. congruence.
    + now rewrite IH.
Qed.

Lemma hasProp_In o key : hasProp o key = true <-> In key (map fst o).
Proof.
  induction o as [|[k v] o IH]; cbn [hasProp map fst In].
  - split; [discriminate | tauto].
  - rewrite orb_true_iff, eqb_eq, IH. tauto.
Qed.

(** Spreading an object over another: the properties of the source win,
    the others are those of the target. *)
Lemma getProp_spread source target k :
  NoDup (map fst source) ->
  getProp (spread target source) k =
  if hasProp source k then getProp source k else getProp target k.
Proof.
  revert target. induction source as [|[k0 v0] source IH]; intros target D.
  - reflexivity.
  - cbn [map fst] in D. apply NoDup_cons_iff in D as [Hk D].
    change (spread target ((k0, v0) :: source))
      with (spread (setProp target k0 v0) source).
    rewrite (IH _ D). cbn [hasProp getProp].
    destruct (hasProp source k) eqn:Hs.
    + rewrite orb_true_r. replace (eqb k0 k) with false; [reflexivity|].
      symmetry. apply eqb_neq. intros ->. apply Hk. now apply hasProp_In.
    + rewrite orb_false_r. destruct (eqb k0 k) eqn:E.
      * apply eqb_eq in E. subst. apply getProp_setProp_same.
      * apply getProp_setProp_other. apply eqb_neq in E. congruence.
Qed.

(** ** Validation *)

Lemma hasNodeOfType_iff ns t :
  hasNodeOfType ns t = true <-> exists n, In n ns /\ type n = t.
Proof.
  unfold hasNodeOfType. rewrite existsb_exists.
  split; intros (n & Hn & E); exists n; split; trivial; now apply eqb_eq.
Qed.

(** X9.  The verdict of [validateWorkflow]: the workflow passes exactly when it
    has a node of each of the three required types and at least one edge;
    then no toast is shown, and otherwise exactly one, of type error. *)
Theorem validateWorkflow_verdict (ns : list node) (es : list edge) :
  (snd (validateWorkflow ns es) = true <->
     (exists n, In n ns /\ type n = lit "inputNode")
     /\ (exists n, In n ns /\ type n = lit "outputNode")
     /\ (exists n, In n ns /\ type n = lit "llmNode")
     /\ es <> [])
  /\ (snd (validateWorkflow ns es) = true -> fst (validateWorkflow ns es) = [])
  /\ (snd (validateWorkflow ns es) = false ->
      exists text, fst (validateWorkflow ns es) = [Toast (Str text) (lit "error")]).
Proof.
  rewrite <- !hasNodeOfType_iff. unfold validateWorkflow.
  destruct (hasNodeOfType ns (lit "inputNode")); cbn [negb];
    [|split; [split; [discriminate | now intros [? _]]
             | split; [discriminate | eexists; reflexivity]]].
  destruct (hasNodeOfType ns (lit "outputNode")); cbn [negb];
    [|split; [split; [discriminate | now intros (_ & ? & _)]
             | split; [discriminate | eexists; reflexivity]]].
  destruct (hasNodeOfType ns (lit "llmNode")); cbn [negb];
    [|split; [split; [discriminate | now intros (_ & _ & ? & _)]
             | split; [discriminate | eexists; reflexivity]]].
  destruct es as [|e es]; cbn [List.length Nat.eqb fst snd].
  - split; [split; [discriminate | now intros (_ & _ & _ & ?)]
           | split; [discriminate | eexists; reflexivity]].
  - split; [split; [intros _; repeat split; discriminate | reflexivity]
           | split; [reflexivity | discriminate]].
Qed.

Lemma hasNodeOfType_types ns t :
  hasNodeOfType ns t = existsb (fun x => eqb x t) (map type ns).
Proof.
  unfold hasNodeOfType. induction ns as [|n ns IH]; [reflexivity|].
  cbn [existsb map]. now rewrite IH.
Qed.

(** The verdict looks at the types of the nodes and at whether there is an
    edge, and at nothing else. *)
Lemma validateWorkflow_depends ns ns' es es' :
  map type ns' = map type ns ->
  (List.length es' =? 0)%nat = (List.length es =? 0)%nat ->
  validateWorkflow ns' es' = validateWorkflow ns es.
Proof.
  intros Ht He. unfold validateWorkflow.
  now rewrite !hasNodeOfType_types, Ht, He.
Qed.

(** ** Editing the data of the selected node *)

Lemma updateNode_other sel key value n :
  id n <> sel -> updateNode sel key value n = n.
Proof.
  intro H. unfold updateNode. now rewrite (proj2 (eqb_neq _ _) H).
Qed.

Lemma updateNode_shape sel key value n :
  id (updateNode sel key value n) = id n
  /\ type (updateNode sel key value n) = type n
  /\ position (updateNode sel key value n) = position n.
Proof. unfold updateNode. now destruct (eqb (id n) sel). Qed.

Lemma updateNode_data sel key value n :
  id n = sel ->
  getProp (data (updateNode sel key value n)) key = value
  /\ (forall k, k <> key -> k <> lit "subtext" ->
        getProp (data (updateNode sel key value n)) k = getProp (data n) k)
  /\ (key = lit "model" \/ key = lit "filename" \/ key = lit "embeddingModel" ->
        getProp (data (updateNode sel key value n)) (lit "subtext") = value)
  /\ (key <> lit "model" -> key <> lit "filename" ->
      key <> lit "embeddingModel" -> key <> lit "subtext" ->
        getProp (data (updateNode sel key value n)) (lit "subtext") =
        getProp (data n) (lit "subtext")).
Proof.
  intro H. unfold updateNode. rewrite (proj2 (eqb_eq _ _) H). cbn [data].
  destruct (eqb key (lit "model")) eqn:E1;
    [apply eqb_eq in E1 | apply (proj1 (eqb_neq _ _)) in E1];
    (destruct (eqb key (lit "filename")) eqn:E2;
     [apply eqb_eq in E2 | apply (proj1 (eqb_neq _ _)) in E2]);
    (destruct (eqb key (lit "embeddingModel")) eqn:E3;
     [apply eqb_eq in E3 | apply (proj1 (eqb_neq _ _)) in E3]);
    try (rewrite E1 in E2; discriminate E2);
    try (rewrite E1 in E3; discriminate E3);
    try (rewrite E2 in E3; discriminate E3);
    try subst key;
    (split; [|split; [|split]];
     [ | intros k Hk Hs | intros [K | [K | K]] | intros K1 K2 K3 K4 ]);
    try congruence;
    repeat first
      [ rewrite getProp_setProp_same
      | rewrite getProp_setProp_other
          by first [assumption | discriminate | congruence
                   | now apply not_eq_sym] ];
    reflexivity.
Qed.

(** X11.  [updateNodeData] with a node selected.  The list keeps its length and
    order, and every node its id, type and position.  A node with another
    id is left as it is.  In a node with the id of the selected one the
    property [key] now reads [value], the properties other than [key] and
    [subtext] read as before, and [subtext] reads [value] too when [key] is
    one of [model], [filename] and [embeddingModel]. *)
Theorem updateNodeData_nodes
    (ns : list node) (sel : node) (key : jsstring) (value : jsvalue) :
  Forall2
    (fun n n' =>
       id n' = id n /\ type n' = type n /\ position n' = position n
       /\ (id n <> id sel -> n' = n)
       /\ (id n = id sel ->
           getProp (data n') key = value
           /\ (forall k, k <> key -> k <> lit "subtext" ->
                 getProp (data n') k = getProp (data n) k)
           /\ (key = lit "model" \/ key = lit "filename"
               \/ key = lit "embeddingModel" ->
                 getProp (data n') (lit "subtext") = value)))
    ns (fst (updateNodeData ns (Some sel) key value)).
Proof.
  cbn [updateNodeData fst]. induction ns as [|n ns IH]; constructor; trivial.
  destruct (updateNode_shape (id sel) key value n) as (H1 & H2 & H3).
  repeat split; trivial.
  - now apply updateNode_other.
  - now apply updateNode_data.
  - now apply updateNode_data.
  - now apply updateNode_data.
Qed.

(** X12.  The copy kept in [selectedNode] gets the property [key] and nothing
    else: its [subtext] is not brought in line with the one written into the
    list of nodes.  Without a selected node [updateNodeData] does nothing. *)
Theorem updateNodeData_selected
    (ns : list node) (sel : node) (key : jsstring) (value : jsvalue) :
  updateNodeData ns None key value = (ns, None)
  /\ exists sel',
       snd (updateNodeData ns (Some sel) key value) = Some sel'
       /\ id sel' = id sel /\ type sel' = type sel
       /\ position sel' = position sel
       /\ getProp (data sel') key = value
       /\ forall k, k <> key -> getProp (data sel') k = getProp (data sel) k.
Proof.
  split; [reflexivity|]. eexists. split; [reflexivity|]. cbn [id type position data].
  repeat split.
  - apply getProp_setProp_same.
  - intros k Hk. now apply getProp_setProp_other.
Qed.

Lemma updateNodeData_types ns sel key value :
  map type (fst (updateNodeData ns sel key value)) = map type ns.
Proof.
  destruct sel as [sel|]; [|reflexivity]. cbn [updateNodeData fst].
  rewrite map_map. apply map_ext. intro n.
  apply (updateNode_shape (id sel) key value n).
Qed.

(** X10.  Editing node data never changes the verdict of the validation, and a
    workflow that passes still passes when nodes and edges are added. *)
Theorem validateWorkflow_stable
    (ns more : list node) (es moreEdges : list edge)
    (sel : option node) (key : jsstring) (value : jsvalue) :
  validateWorkflow (fst (updateNodeData ns sel key value)) es =
    validateWorkflow ns es
  /\ (snd (validateWorkflow ns es) = true ->
      snd (validateWorkflow (ns ++ more) (es ++ moreEdges)) = true).
Proof.
  split.
  - apply validateWorkflow_depends; [apply updateNodeData_types | reflexivity].
  - unfold validateWorkflow, hasNodeOfType. rewrite !existsb_app.
    destruct (existsb _ ns); [|discriminate].
    destruct (existsb _ ns); [|discriminate].
    destruct (existsb _ ns); [|discriminate]. cbn [orb negb].
    destruct es; [discriminate | reflexivity].
Qed.

(** ** The requests *)

Lemma getProp_absent o k : hasProp o k = false -> getProp o k = Undefined.
Proof.
  induction o as [|[k' v] o IH]; [reflexivity|]. cbn [hasProp getProp].
  intro H. apply orb_false_elim in H as [-> H]. now apply IH.
Qed.

Lemma hasProp_setProp o k v k' :
  hasProp (setProp o k v) k' = hasProp o k' || eqb k k'.
Proof.
  induction o as [|[k0 v0] o IH]; cbn [setProp hasProp].
  - now rewrite orb_false_r.
  - destruct (eqb k0 k) eqn:E; cbn [hasProp].
    + apply eqb_eq in E. subst k0.
      destruct (eqb k k'), (hasProp o k'); reflexivity.
    + rewrite IH. now rewrite orb_assoc.
Qed.

Lemma hasProp_spread source target k :
  hasProp (spread target source) k = hasProp target k || hasProp source k.
Proof.
  revert target. induction source as [|[k0 v0] source IH]; intro target.
  - cbn. now rewrite orb_false_r.
  - change (spread target ((k0, v0) :: source))
      with (spread (setProp target k0 v0) source).
    rewrite IH, hasProp_setProp. cbn [hasProp]. now rewrite orb_assoc.
Qed.

Lemma In_keys_setProp o k v x :
  In x (map fst (setProp o k v)) -> In x (map fst o) \/ x = k.
Proof.
  induction o as [|[k0 v0] o IH]; cbn [setProp map fst In].
  - intros [<- | []]. now right.
  - destruct (eqb k0 k); cbn [map fst In]; [tauto|].
    intros [H | H]; [tauto|]. destruct (IH H); tauto.
Qed.

Lemma NoDup_setProp o k v :
  NoDup (map fst o) -> NoDup (map fst (setProp o k v)).
Proof.
  induction o as [|[k0 v0] o IH]; cbn [setProp map fst]; intro D.
  - repeat constructor. intros [].
  - apply NoDup_cons_iff in D as [H D].
    destruct (eqb k0 k) eqn:E; cbn [map fst].
    + now constructor.
    + constructor; [|now apply IH]. intro K.
      apply In_keys_setProp in K as [K | K]; [contradiction|].
      subst k0. now rewrite eqb_refl in E.
Qed.

Lemma NoDup_spread source target :
  NoDup (map fst target) -> NoDup (map fst (spread target source)).
Proof.
  revert target. induction source as [|[k0 v0] source IH]; intros target D;
    [exact D|].
  change (spread target ((k0, v0) :: source))
    with (spread (setProp target k0 v0) source).
  now apply IH, NoDup_setProp.
Qed.

(** Reading a property in the JSON text of an object: the property is
    there when the object has it and its value gives a text. *)
Lemma jsonMember_object o k :
  NoDup (map fst o) ->
  jsonMember (jsonOfObject o) k =
  if hasProp o k then jsonOfValue (getProp o k) else None.
Proof.
  unfold jsonOfObject. cbn [jsonMember].
  induction o as [|[k0 v0] o IH]; intro D; [reflexivity|].
  cbn [map fst] in D. apply NoDup_cons_iff in D as [H D].
  cbn [flat_map hasProp getProp fst snd].
  destruct (eqb k0 k) eqn:E; cbn [orb].
  - apply eqb_eq in E. subst k0.
    destruct (jsonOfValue v0) as [j|]; cbn [member app lookup].
    + now rewrite eqb_refl.
    + rewrite (IH D).
      destruct (hasProp o k) eqn:K; [|reflexivity].
      apply hasProp_In in K. contradiction.
  - destruct (jsonOfValue v0) as [j|]; cbn [member app lookup];
      [rewrite E|]; exact (IH D).
Qed.

(** X13.  The [config] as it is sent for a node when the user chats, that
    is after [JSON.stringify].  Every property of the node's data takes the
    place of the computed one of the same name and is sent as
    [JSON.stringify] writes its value: as it is for a string, also an empty
    one, as [null] for a number that is NaN or infinite, and not at all for
    [undefined].  The default model and the default system prompt are sent
    only when the data have no [model] and no [system_prompt] property.  The
    request built by [handleBuildStack] has no defaults: it sends the
    [model] of the data, or none. *)
Theorem chat_request_config (n : node) :
  NoDup (map fst (data n)) ->
  let sent := jsonOfObject (r_config (chatNodeOf n)) in
  jsonPath (jsonOfNode (chatNodeOf n)) [lit "data"; lit "config"] = Some sent
  /\ (forall k, hasProp (data n) k = true ->
        jsonMember sent k = jsonOfValue (getProp (data n) k))
  /\ (hasProp (data n) (lit "model") = false ->
      jsonMember sent (lit "model") =
      Some (JStr (lit "llama-3.3-70b-versatile")))
  /\ (hasProp (data n) (lit "system_prompt") = false ->
      jsonMember sent (lit "system_prompt") =
      jsonOfValue (orValue (getProp (data n) (lit "prompt"))
                     (Str (lit "You are a helpful assistant."))))
  /\ (hasProp (data n) (lit "vector_collection_id") = false ->
      jsonMember sent (lit "vector_collection_id") =
      jsonOfValue (getProp (data n) (lit "documentId")))
  /\ jsonMember (jsonOfObject (r_config (buildNodeOf n))) (lit "model") =
     jsonOfValue (getProp (data n) (lit "model")).
Proof.
  intros D sent. subst sent.
  cbn [r_config chatNodeOf buildNodeOf]. unfold chatConfig, buildConfig.
  assert (B : forall base k,
             NoDup (map fst base) ->
             jsonMember (jsonOfObject (spread base (data n))) k =
             if hasProp (data n) k then jsonOfValue (getProp (data n) k)
             else if hasProp base k then jsonOfValue (getProp base k)
             else None).
  { intros base k Db.
    rewrite jsonMember_object by now apply NoDup_spread.
    rewrite hasProp_spread, getProp_spread by exact D.
    destruct (hasProp (data n) k); [now rewrite orb_true_r|].
    now rewrite orb_false_r. }
  assert (N : forall a b c : jsvalue,
             NoDup (map fst [(lit "model", a); (lit "system_prompt", b);
                             (lit "vector_collection_id", c)])).
  { intros a b c. repeat constructor; cbn; intuition discriminate. }
  split; [|split; [|split; [|split; [|split]]]].
  - unfold jsonOfNode. cbn [jsonPath jsonMember r_label r_config].
    destruct (jsonOfValue _); reflexivity.
  - intros k H. now rewrite B, H by apply N.
  - intro H. rewrite B, H by apply N.
    now rewrite (getProp_absent _ _ H).
  - intro H. now rewrite B, H by apply N.
  - intro H. now rewrite B, H by apply N.
  - rewrite B by apply N.
    destruct (hasProp (data n) (lit "model")) eqn:H; [reflexivity|].
    cbn [hasProp getProp]. now rewrite (getProp_absent _ _ H).
Qed.

Lemma chat_request_config_witness :
  NoDup (map fst [(lit "label", Str (lit "LLM Engine")); (lit "model", Str []);
                  (lit "chunkSize", Num PrimFloat.nan);
                  (lit "documentId", Undefined)])
  /\ jsonOfObject
       (r_config
          (chatNodeOf
             (Node (lit "node_1") (lit "llmNode")
                (XY PrimFloat.zero PrimFloat.zero)
                [(lit "label", Str (lit "LLM Engine")); (lit "model", Str []);
                 (lit "chunkSize", Num PrimFloat.nan);
                 (lit "documentId", Undefined)]))) =
     JObj [(lit "model", JStr []);
           (lit "system_prompt", JStr (lit "You are a helpful assistant."));
           (lit "label", JStr (lit "LLM Engine"));
           (lit "chunkSize", JNull)]
  /\ jsonMember
       (jsonOfObject
          (r_config
             (chatNodeOf
                (Node (lit "node_1") (lit "llmNode")
                   (XY PrimFloat.zero PrimFloat.zero)
                   [(lit "label", Str (lit "LLM Engine"));
                    (lit "model", Str []);
                    (lit "chunkSize", Num PrimFloat.nan);
                    (lit "documentId", Undefined)]))))
       (lit "chunkSize") = Some JNull.
Proof.
  assert (D : NoDup (map fst [(lit "label", Str (lit "LLM Engine"));
                              (lit "model", Str []);
                              (lit "chunkSize", Num PrimFloat.nan);
                              (lit "documentId", Undefined)])).
  { repeat constructor; cbn; intuition discriminate. }
  split; [exact D|]. split; [reflexivity|].
  exact (proj1 (proj2 (chat_request_config
                         (Node (lit "node_1") (lit "llmNode")
                            (XY PrimFloat.zero PrimFloat.zero)
                            [(lit "label", Str (lit "LLM Engine"));
                             (lit "model", Str []);
                             (lit "chunkSize", Num PrimFloat.nan);
                             (lit "documentId", Undefined)]) D))
           (lit "chunkSize") eq_refl).
Defined.

(** X14.  The request of the chat carries the nodes and the edges in their order,
    each node with its id, type and position, each edge with its ends, and
    the query.  The id of an edge is its own when that is truthy; in every
    case the id sent is truthy. *)
Theorem chat_request_shape
    (ns : list node) (es : list edge) (query : jsstring) :
  let r := requestData ns es query in
  map r_id (req_nodes r) = map id ns
  /\ map r_type (req_nodes r) = map type ns
  /\ map r_position (req_nodes r) = map position ns
  /\ user_query r = query
  /\ Forall2
       (fun e e' =>
          q_source e' = source e /\ q_target e' = target e
          /\ truthyValue (q_id e') = true
          /\ (truthyValue (edgeId e) = true -> q_id e' = edgeId e))
       es (req_edges r).
Proof.
  cbv zeta. cbn [requestData req_nodes req_edges user_query].
  rewrite !map_map. repeat split.
  induction es as [|e es IH]; constructor; trivial.
  cbn [requestEdgeOf q_source q_target q_id]. unfold orValue.
  repeat split; destruct (truthyValue (edgeId e)) eqn:E;
    trivial; discriminate.
Qed.

(** ** Uploading a document *)

(** What the three updates of a successful upload do to one node. *)
Lemma upload_node sel name v n :
  let n1 := updateNode sel (lit "filename") (Str name) n in
  let n3 := updateNode sel (lit "subtext") (Str name)
              (updateNode sel (lit "documentId") v n1) in
  (id n <> sel -> n1 = n /\ n3 = n)
  /\ (id n = sel ->
      getProp (data n1) (lit "filename") = Str name
      /\ getProp (data n1) (lit "subtext") = Str name
      /\ getProp (data n1) (lit "documentId") =
         getProp (data n) (lit "documentId")
      /\ getProp (data n3) (lit "filename") = Str name
      /\ getProp (data n3) (lit "subtext") = Str name
      /\ getProp (data n3) (lit "documentId") = v).
Proof.
  cbv zeta. split.
  - intro H.
    rewrite (updateNode_other sel (lit "filename") (Str name) n H).
    rewrite (updateNode_other sel (lit "documentId") v n H).
    rewrite (updateNode_other sel (lit "subtext") (Str name) n H).
    now split.
  - intro H.
    set (n1 := updateNode sel (lit "filename") (Str name) n).
    set (n2 := updateNode sel (lit "documentId") v n1).
    assert (I1 : id n1 = sel)
      by (transitivity (id n); [apply updateNode_shape | exact H]).
    assert (I2 : id n2 = sel)
      by (transitivity (id n1); [apply updateNode_shape | exact I1]).
    destruct (updateNode_data sel (lit "filename") (Str name) n H)
      as (A1 & A2 & A3 & _).
    destruct (updateNode_data sel (lit "documentId") v n1 I1)
      as (B1 & B2 & _ & B4).
    destruct (updateNode_data sel (lit "subtext") (Str name) n2 I2)
      as (C1 & C2 & _).
    fold n1 in A1, A2, A3. fold n2 in B1, B2, B4.
    repeat split.
    + exact A1.
    + apply A3. right. now left.
    + apply A2; discriminate.
    + rewrite C2 by discriminate. rewrite B2 by discriminate. exact A1.
    + exact C1.
    + rewrite C2 by discriminate. exact B1.
Qed.

(** X15.  [handleFileUpload] with a file and a node selected.  Whatever comes
    back, the request is posted once, one toast is shown, [isLoading] ends
    false and the nodes with another id than the selected one are left as
    they are.  In the nodes with that id the name of the file is written to
    [filename] and to [subtext] in every case, also when the upload fails;
    [documentId] is written only when the response is ok and parses, and
    keeps its value otherwise. *)
Theorem handleFileUpload_outcome
    (url : jsstring) (u : ui) (sel : node) (name : jsstring)
    (resp : jsonResult) :
  selectedNode u = Some sel ->
  let u' := handleFileUpload url u (Some name) resp in
  isLoading u' = false
  /\ (exists t, toasts u' = toasts u ++ [t]
                /\ (toastType t = lit "success" <->
                    exists v, resp = OkJson v))
  /\ posted u' = posted u ++ [(url ++ lit "/documents/upload", FormBody name)]
  /\ edges u' = edges u
  /\ Forall2
       (fun n n' =>
          (id n <> id sel -> n' = n)
          /\ (id n = id sel ->
              getProp (data n') (lit "filename") = Str name
              /\ getProp (data n') (lit "subtext") = Str name
              /\ getProp (data n') (lit "documentId") =
                 match resp with
                 | OkJson v => v
                 | _ => getProp (data n) (lit "documentId")
                 end))
       (nodes u) (nodes u').
Proof.
  intros H u'. subst u'. destruct u as [ns es sn ts l ps].
  cbn [selectedNode] in H. subst sn.
  assert (F : forall v,
             Forall2
               (fun n n' =>
                  (id n <> id sel -> n' = n)
                  /\ (id n = id sel ->
                      getProp (data n') (lit "filename") = Str name
                      /\ getProp (data n') (lit "subtext") = Str name
                      /\ getProp (data n') (lit "documentId") =
                         getProp (data n) (lit "documentId")))
               ns (map (updateNode (id sel) (lit "filename") (Str name)) ns)
             /\ Forall2
                  (fun n n' =>
                     (id n <> id sel -> n' = n)
                     /\ (id n = id sel ->
                         getProp (data n') (lit "filename") = Str name
                         /\ getProp (data n') (lit "subtext") = Str name
                         /\ getProp (data n') (lit "documentId") = v))
                  ns
                  (map (updateNode (id sel) (lit "subtext") (Str name))
                     (map (updateNode (id sel) (lit "documentId") v)
                        (map (updateNode (id sel) (lit "filename") (Str name))
                           ns)))).
  { intro v. split; induction ns as [|n ns IH]; cbn [map]; constructor;
      trivial; destruct (upload_node (id sel) name v n) as [A B]; split;
      intro K; try (now apply A);
      destruct (B K) as (B1 & B2 & B3 & B4 & B5 & B6); now repeat split. }
  destruct resp as [| v | | | detail |];
    cbn [handleFileUpload updateNodeDataIn updateNodeData nodes edges
         selectedNode toasts isLoading posted setIsLoading showToast post id];
    (split; [reflexivity|]);
    (split; [eexists; split; [reflexivity|]; cbn [toastType errorToast]
            | split; [reflexivity | split; [reflexivity|]]]).
  all: try (split; [discriminate | now intros [w ?]]).
  all: try (split; [now exists v | reflexivity]).
  all: apply (F Undefined) || apply F.
Qed.

Lemma handleFileUpload_outcome_witness :
  let u := Ui [Node (lit "node_1") (lit "knowledgeNode")
                 (XY PrimFloat.zero PrimFloat.zero)
                 [(lit "label", Str (lit "Knowledge Base"));
                  (lit "subtext", Str (lit "Not Configured"))]]
              [] 
              (Some (Node (lit "node_1") (lit "knowledgeNode")
                       (XY PrimFloat.zero PrimFloat.zero)
                       [(lit "label", Str (lit "Knowledge Base"));
                        (lit "subtext", Str (lit "Not Configured"))]))
              [] false [] in
  selectedNode u <> None
  /\ isLoading (handleFileUpload localhost u (Some (lit "a.pdf")) Rejected)
     = false.
Proof.
  cbv zeta. split; [discriminate|].
  exact (proj1 (handleFileUpload_outcome localhost
                  (Ui [Node (lit "node_1") (lit "knowledgeNode")
                         (XY PrimFloat.zero PrimFloat.zero)
                         [(lit "label", Str (lit "Knowledge Base"));
                          (lit "subtext", Str (lit "Not Configured"))]]
                      []
                      (Some (Node (lit "node_1") (lit "knowledgeNode")
                               (XY PrimFloat.zero PrimFloat.zero)
                               [(lit "label", Str (lit "Knowledge Base"));
                                (lit "subtext", Str (lit "Not Configured"))]))
                      [] false [])
                  _ (lit "a.pdf") Rejected eq_refl)).
Defined.

(** ** Validation before a request *)

Lemma validateWorkflow_cases ns es :
  validateWorkflow ns es = ([], true)
  \/ exists text,
       validateWorkflow ns es = ([Toast (Str text) (lit "error")], false).
Proof.
  unfold validateWorkflow.
  repeat match goal with
         | |- context [if ?c then _ else _] => destruct c
         end;
    (now left) || (right; eexists; reflexivity).
Qed.

(** X16.  [handleBuildStack] never touches the nodes, the edges or the
    selection.  The workflow is posted only when the validation passes, and
    once, as [JSON.stringify] writes it; [isLoading] then ends false,
    whatever comes back.  One toast is shown, and it says success only when
    the workflow passed and the response was ok with a body that is not
    [null].  The exception is an ok response whose body is [null] for a
    workflow that passed: the success toast is shown, reading [data.plan]
    throws, and the toast of the [catch] block follows it. *)
Theorem handleBuildStack_outcome (url : jsstring) (u : ui) (resp : jsonResult) :
  let u' := handleBuildStack url u resp in
  let valid := snd (validateWorkflow (nodes u) (edges u)) in
  nodes u' = nodes u /\ edges u' = edges u
  /\ selectedNode u' = selectedNode u
  /\ (if valid && match resp with OkNull => true | _ => false end
      then toasts u' =
           toasts u ++
           [Toast (Str (lit "Workflow validated successfully!")) (lit "success");
            errorToast "Backend not available. Check if server is running."]
      else exists t, toasts u' = toasts u ++ [t]
                     /\ (toastType t = lit "success" <->
                         valid = true /\ exists v, resp = OkJson v))
  /\ posted u' =
     (if valid
      then posted u ++
           [(url ++ lit "/workflows/validate",
             JsonBody (stringify (workflowData (nodes u) (edges u))))]
      else posted u)
  /\ isLoading u' = (if valid then false else isLoading u).
Proof.
  cbv zeta. unfold handleBuildStack.
  destruct (validateWorkflow_cases (nodes u) (edges u)) as [-> | (text & ->)];
    cbn [fold_left negb snd andb].
  - destruct resp;
      cbn [nodes edges selectedNode toasts posted isLoading setIsLoading
           showToast post];
      repeat split;
      try (eexists; split; [reflexivity|]; cbn [toastType errorToast];
           split; [discriminate | now intros [_ [v ?]]]).
    + eexists. split; [reflexivity|]. cbn [toastType].
      split; [intros _; split; [reflexivity | now eexists] | reflexivity].
    + now rewrite <- app_assoc.
  - cbn [nodes edges selectedNode toasts posted isLoading showToast].
    repeat split. eexists. split; [reflexivity|]. cbn [toastType].
    split; [discriminate | now intros [? _]].
Qed.

(** X17.  The guards of the chat handler.  A query that is blank once trimmed
    does nothing, not even the validation.  With a workflow that does not
    pass, one toast of type error is shown, nothing is posted and no call of
    [setChatHistory] is made.  Otherwise the workflow is posted once, with
    the query as typed, and no toast is shown. *)
Theorem submitChat_guards
    (url : jsstring) (u : ui) (query : jsstring) (resp : fetchResult) :
  let u' := fst (submitChat url u query resp) in
  let queue := snd (submitChat url u query resp) in
  let valid := snd (validateWorkflow (nodes u) (edges u)) in
  (truthy (trim query) = false -> u' = u /\ queue = [])
  /\ (truthy (trim query) = true -> valid = false ->
      queue = [] /\ posted u' = posted u /\ isLoading u' = isLoading u
      /\ exists text, toasts u' = toasts u ++ [Toast (Str text) (lit "error")])
  /\ (truthy (trim query) = true -> valid = true ->
      queue = handleChatSubmit url query true resp
      /\ toasts u' = toasts u /\ isLoading u' = false
      /\ exists r,
           posted u' =
           posted u ++ [(url ++ lit "/run_workflow", JsonBody (stringify r))]
           /\ user_query r = query
           /\ map r_id (req_nodes r) = map id (nodes u)).
Proof.
  cbv zeta. unfold submitChat.
  destruct (truthy (trim query)); cbn [negb].
  2: { split; [now split|]. split; discriminate. }
  split; [discriminate|].
  destruct (validateWorkflow_cases (nodes u) (edges u)) as [-> | (text & ->)];
    cbn [fold_left negb fst snd].
  - split; [discriminate|]. intros _ _.
    cbn [toasts isLoading posted setIsLoading post nodes edges].
    repeat split. eexists. split; [reflexivity|].
    cbn [requestData user_query req_nodes]. split; [reflexivity|].
    now rewrite map_map.
  - split; [|discriminate]. intros _ _.
    cbn [toasts isLoading posted showToast]. repeat split. now exists text.
Qed.

Lemma submitChat_guards_witness :
  truthy (trim (lit "   ")) = false
  /\ fst (submitChat localhost (Ui [] [] None [] false []) (lit "   ")
            FetchRejected) = Ui [] [] None [] false []
  /\ snd (submitChat localhost (Ui [] [] None [] false []) (lit "   ")
            FetchRejected) = [].
Proof.
  split; [reflexivity|].
  exact (proj1 (submitChat_guards localhost (Ui [] [] None [] false [])
                  (lit "   ") FetchRejected) eq_refl).
Defined.
